(** * Triangular-number toolkit: a shallow embedding of the Python scripts

    The scripts [ConnerFrac_v0.1.0.py], [TriangularSquareDiff_v0.1.2.py] and
    [TriangularSquareDiff_v0.1.4.py] share one arithmetic toolkit
    ([triangular_number], [is_perfect_square] and the composite predicates
    built on them); the copies of a function in the different files are
    textually identical, so each function is embedded once.

    Python integers are unbounded and are modelled by [Z]; [//] is floor
    division, which is [Z.div] for a positive divisor.  A Python call either
    returns a value or raises; this is the [result] type below.  The one
    non-integer operation of the toolkit is [int(math.sqrt(x))], which goes
    through an IEEE-754 binary64 value; it is modelled exactly, with integer
    arithmetic, in the module [Float]. *)

From Stdlib Require Import ZArith Lia List Bool.
Import ListNotations.
Local Open Scope Z_scope.

(** ** Results of a Python call *)

Inductive exn : Type :=
| OverflowError   (* "int too large to convert to float" *)
| ValueError.     (* "math domain error" *)

Inductive result (A : Type) : Type :=
| Ok (a : A)
| Raise (e : exn).

Arguments Ok {A} a.
Arguments Raise {A} e.

Definition bind {A B : Type} (c : result A) (k : A -> result B) : result B :=
  match c with
  | Ok a => k a
  | Raise e => Raise e
  end.

Notation "x <- c ;; k" := (bind c (fun x => k))
  (at level 61, c at next level, right associativity).

(** ** [int(math.sqrt(x))] on a Python integer *)

Module Float.

(** binary64: 53 significant bits, finite values below [2^1024]. *)
Definition prec : Z := 53.
Definition emax : Z := 1024.

(** Number of bits of a positive integer ([int.bit_length]). *)
Definition bit_length (x : Z) : Z :=
  if x <=? 0 then 0 else Z.log2 x + 1.

(** [x / 2^k] rounded to the nearest integer, ties to the even one
    ([0 <= x], [0 < k]). *)
Definition round_half_even (x k : Z) : Z :=
  let q := Z.shiftr x k in
  let r := x - Z.shiftl q k in
  let half := Z.shiftl 1 (k - 1) in
  if (half <? r) || ((r =? half) && Z.odd q) then q + 1 else q.

(** [float(x)] for a Python integer [0 <= x] (CPython's [PyLong_AsDouble]):
    the value is kept when it has at most 53 bits and is rounded to 53
    significant bits, ties to even, otherwise; a result that does not fit a
    finite double raises [OverflowError].  The double obtained is an
    integer, and is returned as such. *)
Definition of_int (x : Z) : result Z :=
  let bits := bit_length x in
  if bits <=? prec then Ok x
  else
    let k := bits - prec in
    let v := Z.shiftl (round_half_even x k) k in
    if Z.shiftl 1 emax <=? v then Raise OverflowError else Ok v.

(** The square root of a double [f] that holds a non-negative integer
    ([math.sqrt] calls the C library's [sqrt], which IEEE 754 requires to be
    correctly rounded), as a pair [(m, e)] standing for [m * 2^e] with
    [2^52 <= m <= 2^53].  With [h = floor (log2 f / 2)] the root lies in
    [[2^h, 2^(h+1))], so its unit in the last place is [2^e] for
    [e = h - 52]; [m] is the integer nearest to [sqrt (f / 4^e)].
    [f / 4^e] is an integer for every double [f] (for [0 < e] the low
    [2 * e] bits of [f] are zero), and a tie cannot occur, since
    [(s + 1/2)^2] is not an integer. *)
Definition sqrt (f : Z) : Z * Z :=
  if f =? 0 then (0, 0)
  else
    let h := Z.log2 f / 2 in
    let e := h - (prec - 1) in
    let n := Z.shiftl f (- (2 * e)) in
    let s := Z.sqrt n in
    let m := if s <? n - s * s then s + 1 else s in
    (m, e).

(** [int(d)] for a non-negative finite double [d = m * 2^e]: truncation. *)
Definition to_int (d : Z * Z) : Z :=
  let '(m, e) := d in Z.shiftl m e.

(** [math.sqrt(x)] applied to a Python integer: conversion to a double
    first (which may raise [OverflowError]), then the domain check
    ([ValueError] below zero), then the square root. *)
Definition math_sqrt (x : Z) : result (Z * Z) :=
  if x <? 0 then
    (f <- of_int (- x) ;; Raise ValueError)
  else
    (f <- of_int x ;; Ok (sqrt f)).

(** [int(math.sqrt(x))]. *)
Definition int_sqrt (x : Z) : result Z :=
  d <- math_sqrt x ;; Ok (to_int d).

End Float.

(** ** The toolkit *)

(** [range(lo, hi)]: the integers [lo, lo + 1, ..., hi - 1]. *)
Fixpoint range_from (lo : Z) (len : nat) : list Z :=
  match len with
  | O => []
  | S len' => lo :: range_from (lo + 1) len'
  end.

Definition range (lo hi : Z) : list Z :=
  range_from lo (Z.to_nat (hi - lo)).

(** [triangular_number(n)]: [n * (n + 1) // 2]. *)
Definition triangular_number (n : Z) : Z :=
  n * (n + 1) / 2.

(** [is_perfect_square(x)]. *)
Definition is_perfect_square (x : Z) : result bool :=
  if x <? 0 then Ok false
  else
    root <- Float.int_sqrt x ;;
    Ok (root * root =? x).

(** [is_square_of_triangular(x)]: [(flag, n)]. *)
Definition is_square_of_triangular (x : Z) : result (bool * Z) :=
  sq <- is_perfect_square x ;;
  if negb sq then Ok (false, 0)
  else
    sqrt_x <- Float.int_sqrt x ;;
    let discriminant := 1 + 8 * sqrt_x in
    dsq <- is_perfect_square discriminant ;;
    if negb dsq then Ok (false, 0)
    else
      sqrt_discriminant <- Float.int_sqrt discriminant ;;
      let n1 := (-1 + sqrt_discriminant) / 2 in
      let n2 := (-1 - sqrt_discriminant) / 2 in
      let n := Z.max n1 n2 in
      if (0 <? n) && (triangular_number n =? sqrt_x) then Ok (true, n)
      else Ok (false, 0).

(** The [for n in range(1, max_n + 1)] loop of
    [is_difference_of_triangulars], over the indices still to visit. *)
Fixpoint difference_loop (x : Z) (ns : list Z) : result (bool * Z * Z) :=
  match ns with
  | [] => Ok (false, 0, 0)
  | n :: ns' =>
      let T_n := triangular_number n in
      let target_T_m := T_n + x in
      let discriminant := 1 + 8 * target_T_m in
      dsq <- is_perfect_square discriminant ;;
      if dsq then
        sqrt_discriminant <- Float.int_sqrt discriminant ;;
        let m1 := (-1 + sqrt_discriminant) / 2 in
        let m2 := (-1 - sqrt_discriminant) / 2 in
        let m := Z.max m1 m2 in
        if (n <? m) && (triangular_number m =? target_T_m) then Ok (true, n, m)
        else difference_loop x ns'
      else difference_loop x ns'
  end.

(** [is_difference_of_triangulars(x)]: [(flag, n, m)]. *)
Definition is_difference_of_triangulars (x : Z) : result (bool * Z * Z) :=
  let max_n := 1000 in
  difference_loop x (range 1 (max_n + 1)).

(** [T_(T_n^2)], the value the two nested searches compare against. *)
Definition T_of_T_squared (n : Z) : Z :=
  let T_n := triangular_number n in
  let T_n_squared := T_n * T_n in
  triangular_number T_n_squared.

(** The search loop of [is_triangular_of_square_of_triangular] and of
    [is_square_of_triangular_of_square_of_triangular] (the same loop body in
    both, run on [x] and on [sqrt_x]): a hit returns, a value above the
    target leaves the loop, and the function then returns [(False, 0)]. *)
Fixpoint nested_loop (target : Z) (ns : list Z) : bool * Z :=
  match ns with
  | [] => (false, 0)
  | n :: ns' =>
      let T_of_T_n_squared := T_of_T_squared n in
      if T_of_T_n_squared =? target then (true, n)
      else if target <? T_of_T_n_squared then (false, 0)
      else nested_loop target ns'
  end.

(** [is_triangular_of_square_of_triangular(x)]: [(flag, n)]; no call in it
    can raise. *)
Definition is_triangular_of_square_of_triangular (x : Z) : bool * Z :=
  let max_n := 20 in
  nested_loop x (range 1 (max_n + 1)).

(** [is_square_of_triangular_of_square_of_triangular(x)]: [(flag, n)]. *)
Definition is_square_of_triangular_of_square_of_triangular (x : Z)
  : result (bool * Z) :=
  sq <- is_perfect_square x ;;
  if negb sq then Ok (false, 0)
  else
    sqrt_x <- Float.int_sqrt x ;;
    let max_n := 10 in
    Ok (nested_loop sqrt_x (range 1 (max_n + 1))).

(** [is_sum_of_consecutive_triangulars(x)]: [(flag, n)]. *)
Definition is_sum_of_consecutive_triangulars (x : Z) : result (bool * Z) :=
  sq <- is_perfect_square x ;;
  if negb sq then Ok (false, 0)
  else
    sqrt_x <- Float.int_sqrt x ;;
    let n := sqrt_x - 1 in
    if 0 <? n then
      let T_n := triangular_number n in
      let T_n_plus_1 := triangular_number (n + 1) in
      if T_n + T_n_plus_1 =? x then Ok (true, n) else Ok (false, 0)
    else Ok (false, 0).

(** The [for x in range(1, 10001)] loop of [find_smallest_solution]
    ([ConnerFrac_v0.1.0.py]).  The [print] calls only write to the console
    and are left out; [None] is the not-found result. *)
Fixpoint solution_loop (xs : list Z) : result (option (Z * Z * Z * Z)) :=
  match xs with
  | [] => Ok None
  | x :: xs' =>
      r1 <- is_square_of_triangular x ;;
      let '(is_square_tri, n1) := r1 in
      if is_square_tri then
        r2 <- is_difference_of_triangulars x ;;
        let '(is_diff_tri, n2, m) := r2 in
        if is_diff_tri then Ok (Some (x, n1, n2, m))
        else solution_loop xs'
      else solution_loop xs'
  end.

Definition find_smallest_solution : result (option (Z * Z * Z * Z)) :=
  solution_loop (range 1 10001).

(** ** The other functions of the scripts *)

(** [range(start, stop, step)] for a positive [step]. *)
Fixpoint range_step_from (start step : Z) (len : nat) : list Z :=
  match len with
  | O => []
  | S len' => start :: range_step_from (start + step) step len'
  end.

Definition range_step (start stop step : Z) : list Z :=
  range_step_from start step (Z.to_nat ((stop - start + step - 1) / step)).

(** [consecutive_triangular_sum_property(n)]
    ([TriangularSquareDiff_v0.1.4.py], and the same text in v0.1.7):
    [(T_n, T_(n+1), sum, (n+1)**2, is_valid)]. *)
Definition consecutive_triangular_sum_property (n : Z)
  : Z * Z * Z * Z * bool :=
  let T_n := triangular_number n in
  let T_n_plus_1 := triangular_number (n + 1) in
  let sum_consecutive := T_n + T_n_plus_1 in
  let square_of_next := (n + 1) ^ 2 in
  let is_valid := sum_consecutive =? square_of_next in
  (T_n, T_n_plus_1, sum_consecutive, square_of_next, is_valid).

(** The drivers and derivations below leave the [print] calls out, as
    [solution_loop] does; a call whose result is only printed is kept when
    it can raise. *)

Module TriangularSquareDiff_v0_1_2.

(** The [for x in range(1, 100001)] loop of [find_smallest_solution]. *)
Fixpoint solution_loop (xs : list Z) : result (option (Z * Z * Z * Z)) :=
  match xs with
  | [] => Ok None
  | x :: xs' =>
      let '(is_tri_of_square_tri, n1) :=
        is_triangular_of_square_of_triangular x in
      if is_tri_of_square_tri then
        r2 <- is_difference_of_triangulars x ;;
        let '(is_diff_tri, n2, m) := r2 in
        if is_diff_tri then Ok (Some (x, n1, n2, m))
        else solution_loop xs'
      else solution_loop xs'
  end.

Definition find_smallest_solution : result (option (Z * Z * Z * Z)) :=
  solution_loop (range 1 100001).

End TriangularSquareDiff_v0_1_2.

Module TriangularSquareDiff_v0_1_4.

(** The [for x in range(1, 1000001)] loop of [find_smallest_solution] (the
    same text in v0.1.7).  [is_sum_of_consecutive_triangulars(x)] is called
    on a hit, for the report only. *)
Fixpoint solution_loop (xs : list Z) : result (option (Z * Z * Z * Z)) :=
  match xs with
  | [] => Ok None
  | x :: xs' =>
      r1 <- is_square_of_triangular_of_square_of_triangular x ;;
      let '(is_square_tri_of_square_tri, n1) := r1 in
      if is_square_tri_of_square_tri then
        r2 <- is_difference_of_triangulars x ;;
        let '(is_diff_tri, n2, m) := r2 in
        if is_diff_tri then
          r3 <- is_sum_of_consecutive_triangulars x ;;
          Ok (Some (x, n1, n2, m))
        else solution_loop xs'
      else solution_loop xs'
  end.

Definition find_smallest_solution : result (option (Z * Z * Z * Z)) :=
  solution_loop (range 1 1000001).

End TriangularSquareDiff_v0_1_4.

Module TriangularSquareDiff_v0_1_7.

(** [derive_multiple_subscript_expression(n)]:
    [(sqrt_val, sqrt_val - 1, sqrt_val)] or [(None, None, None)]. *)
Definition derive_multiple_subscript_expression (n : Z)
  : result (option Z * option Z * option Z) :=
  let T_n := triangular_number n in
  let T_n_squared := T_n * T_n in
  let T_of_T_n_squared := triangular_number T_n_squared in
  sq <- is_perfect_square T_of_T_n_squared ;;
  if sq then
    sqrt_val <- Float.int_sqrt T_of_T_n_squared ;;
    Ok (Some sqrt_val, Some (sqrt_val - 1), Some sqrt_val)
  else Ok (None, None, None).

(** [general_multiple_subscript_derivation(n)]: [sqrt_val] or [None]. *)
Definition general_multiple_subscript_derivation (n : Z)
  : result (option Z) :=
  let T_n := triangular_number n in
  let T_n_squared := T_n * T_n in
  let T_of_T_n_squared := triangular_number T_n_squared in
  sq <- is_perfect_square T_of_T_n_squared ;;
  if sq then
    sqrt_val <- Float.int_sqrt T_of_T_n_squared ;;
    Ok (Some sqrt_val)
  else Ok None.

(** The loop shared, word for word, by
    [find_smallest_odd_consecutive_sum_and_difference] and
    [find_smallest_consecutive_sum_and_difference]. *)
Fixpoint sum_and_difference_loop (ns : list Z)
  : result (option (Z * Z * Z * Z * Z)) :=
  match ns with
  | [] => Ok None
  | n :: ns' =>
      let x := n * n in
      r <- is_difference_of_triangulars x ;;
      let '(is_diff_tri, k, m) := r in
      if is_diff_tri then Ok (Some (x, n - 1, n, k, m))
      else sum_and_difference_loop ns'
  end.

Definition find_smallest_odd_consecutive_sum_and_difference
  : result (option (Z * Z * Z * Z * Z)) :=
  sum_and_difference_loop (range_step 3 100 2).

Definition find_smallest_consecutive_sum_and_difference
  : result (option (Z * Z * Z * Z * Z)) :=
  sum_and_difference_loop (range 2 100).

End TriangularSquareDiff_v0_1_7.

Module TriangularLaTeXDerivation_v0_2_0.

(** [derive_expression_for_T_T_m_squared_squared(m)]:
    [(sqrt_val, True)] or [(None, False)]. *)
Definition derive_expression_for_T_T_m_squared_squared (m : Z)
  : result (option Z * bool) :=
  let T_m := triangular_number m in
  let T_m_squared := T_m * T_m in
  let T_of_T_m_squared := triangular_number T_m_squared in
  sq <- is_perfect_square T_of_T_m_squared ;;
  if sq then
    sqrt_val <- Float.int_sqrt T_of_T_m_squared ;;
    Ok (Some sqrt_val, true)
  else Ok (None, false).

End TriangularLaTeXDerivation_v0_2_0.

Module TriangularLaTeXDerivation_v0_2_1.

(** [derive_expression_for_T_T_m_squared_squared(m)]: [(j - 1, j)]. *)
Definition derive_expression_for_T_T_m_squared_squared (m : Z) : Z * Z :=
  let T_m := triangular_number m in
  let T_m_squared := T_m * T_m in
  let T_of_T_m_squared := triangular_number T_m_squared in
  let j := T_of_T_m_squared in
  (j - 1, j).

End TriangularLaTeXDerivation_v0_2_1.

Module TriangularLaTeXDerivation_v0_2_2.

(** [derive_expression_for_T_T_m_squared_squared(m)]: [(j - 1, j)], after
    the perfect-square tests of step 4 on [j - 1] and on [j]. *)
Definition derive_expression_for_T_T_m_squared_squared (m : Z)
  : result (Z * Z) :=
  let T_m := triangular_number m in
  let T_m_squared := T_m * T_m in
  let T_of_T_m_squared := triangular_number T_m_squared in
  let j := T_of_T_m_squared in
  sq1 <- is_perfect_square (j - 1) ;;
  u1 <- (if sq1 then (sqrt_j_minus_1 <- Float.int_sqrt (j - 1) ;; Ok tt)
         else Ok tt) ;;
  sq2 <- is_perfect_square j ;;
  u2 <- (if sq2 then (sqrt_j <- Float.int_sqrt j ;; Ok tt) else Ok tt) ;;
  Ok (j - 1, j).

End TriangularLaTeXDerivation_v0_2_2.

Module TriangularLaTeXDerivation_v0_2_5.

(** [derive_expression_for_T_T_m_squared_squared(m)]:
    [(T_of_subscript - 1, T_of_subscript)]. *)
Definition derive_expression_for_T_T_m_squared_squared (m : Z) : Z * Z :=
  let T_m := triangular_number m in
  let T_m_minus_1 := triangular_number (m - 1) in
  let T_m_val := triangular_number m in
  let subscript_value := T_m_minus_1 + T_m_val in
  let T_of_subscript := triangular_number subscript_value in
  (T_of_subscript - 1, T_of_subscript).

End TriangularLaTeXDerivation_v0_2_5.

(** ** Vocabulary of the statements *)

(** The invariant on a returned tuple: every witness is [0] under [False]
    and at least [1] under [True]. *)
Definition sentinel_invariant (flag : bool) (witnesses : list Z) : Prop :=
  if flag then Forall (fun w => 1 <= w) witnesses
  else Forall (fun w => w = 0) witnesses.

(** [x] passes both tests of the driver. *)
Definition passes_both (x : Z) : Prop :=
  exists n1 n2 m,
    is_square_of_triangular x = Ok (true, n1)
    /\ is_difference_of_triangulars x = Ok (true, n2, m).

(** [T_n + x] is a triangular number of larger index. *)
Definition has_partner (x n : Z) : Prop :=
  exists m, n < m /\ triangular_number m = triangular_number n + x.

(** The discriminant that [is_difference_of_triangulars x] meets at the
    index [n] stays where the floating-point root is exact. *)
Definition in_exact_range (x n : Z) : Prop :=
  0 <= n /\ 0 <= 1 + 8 * (triangular_number n + x) < 2 ^ 106.

(** ** Concrete runs *)

Example triangular_number_samples :
  map triangular_number [0; 1; 2; 3; 10; 1000; 10000]
  = [0; 1; 3; 6; 55; 500500; 50005000].
Proof. reflexivity. Qed.

Example is_perfect_square_samples :
  map is_perfect_square [0; 1; 4; 9; 2; 3; 5; 6; 7; 8; 10; 99]
  = map Ok [true; true; true; true; false; false; false; false; false; false;
            false; false].
Proof. vm_compute. reflexivity. Qed.

Example is_square_of_triangular_samples :
  map is_square_of_triangular [1; 9; 2]
  = [Ok (true, 1); Ok (true, 2); Ok (false, 0)].
Proof. vm_compute. reflexivity. Qed.

Example is_difference_of_triangulars_5 :
  is_difference_of_triangulars 5 = Ok (true, 1, 3).
Proof. vm_compute. reflexivity. Qed.

Example is_sum_of_consecutive_triangulars_9 :
  is_sum_of_consecutive_triangulars 9 = Ok (true, 2).
Proof. vm_compute. reflexivity. Qed.

(** ** Ranges *)

Lemma In_range_from (y lo : Z) (len : nat) :
  In y (range_from lo len) <-> lo <= y < lo + Z.of_nat len.
Proof.
  revert lo; induction len as [|len IH]; intros lo; simpl range_from.
  - simpl; lia.
  - simpl In. rewrite IH. lia.
Qed.

Lemma In_range (y lo hi : Z) :
  In y (range lo hi) <-> lo <= y < hi.
Proof.
  unfold range. rewrite In_range_from.
  destruct (Z_le_gt_dec lo hi).
  - rewrite Z2Nat.id by lia. lia.
  - replace (Z.to_nat (hi - lo)) with O by lia. simpl. lia.
Qed.

Lemma range_from_app (lo : Z) (a b : nat) :
  range_from lo (a + b)
  = range_from lo a ++ range_from (lo + Z.of_nat a) b.
Proof.
  revert lo; induction a as [|a IH]; intros lo.
  - simpl. f_equal. lia.
  - change (S a + b)%nat with (S (a + b)). simpl range_from.
    rewrite IH. simpl. do 3 f_equal. lia.
Qed.

Lemma range_split (lo n hi : Z) :
  lo <= n < hi ->
  range lo hi = range lo n ++ n :: range (n + 1) hi.
Proof.
  intros H. unfold range.
  replace (Z.to_nat (hi - lo))
    with (Z.to_nat (n - lo) + S (Z.to_nat (hi - (n + 1))))%nat by lia.
  rewrite range_from_app. f_equal.
  simpl. rewrite Z2Nat.id by lia. f_equal; [lia|]. f_equal. lia.
Qed.

(** In a range, whatever stands before [x] is what lies below [x]. *)
Lemma range_from_prefix (lo : Z) (len : nat) (pre post : list Z) (x y : Z) :
  range_from lo len = pre ++ x :: post ->
  lo <= y < x -> In y pre.
Proof.
  revert lo pre; induction len as [|len IH]; intros lo pre E Hy.
  - destruct pre; discriminate.
  - simpl in E. destruct pre as [|p pre].
    + simpl in E. injection E as E _. lia.
    + simpl in E. injection E as Ep E. subst p.
      destruct (Z.eq_dec y lo) as [->|Hne]; [now left|].
      right. apply (IH (lo + 1)); [exact E | lia].
Qed.

Lemma range_prefix (lo hi : Z) (pre post : list Z) (x y : Z) :
  range lo hi = pre ++ x :: post ->
  lo <= y < x -> In y pre.
Proof. unfold range. apply range_from_prefix. Qed.

(** ** Triangular numbers *)

(** [n * (n + 1)] is even, so the floor division by two is exact. *)
Lemma triangular_number_double (n : Z) :
  2 * triangular_number n = n * (n + 1).
Proof.
  unfold triangular_number.
  destruct (Z.Even_or_Odd n) as [[k ->]|[k ->]].
  - replace (2 * k * (2 * k + 1)) with (k * (2 * k + 1) * 2) by ring.
    rewrite Z.div_mul by lia. ring.
  - replace ((2 * k + 1) * (2 * k + 1 + 1)) with ((2 * k + 1) * (k + 1) * 2)
      by ring.
    rewrite Z.div_mul by lia. ring.
Qed.

Lemma triangular_number_succ (n : Z) :
  triangular_number (n + 1) = triangular_number n + (n + 1).
Proof.
  pose proof (triangular_number_double n).
  pose proof (triangular_number_double (n + 1)). nia.
Qed.

Lemma triangular_number_nonneg (n : Z) : 0 <= triangular_number n.
Proof. pose proof (triangular_number_double n). nia. Qed.

Lemma triangular_number_lt (a b : Z) :
  0 <= a < b -> triangular_number a < triangular_number b.
Proof.
  intros H. pose proof (triangular_number_double a).
  pose proof (triangular_number_double b). nia.
Qed.

(** [T_n + T_(n+1) = (n+1)^2], the identity
    [consecutive_triangular_sum_property] demonstrates. *)
Lemma consecutive_triangular_sum (n : Z) :
  triangular_number n + triangular_number (n + 1) = (n + 1) * (n + 1).
Proof.
  pose proof (triangular_number_double n).
  pose proof (triangular_number_double (n + 1)). nia.
Qed.

(** C2: for every integer [n >= 0], [triangular_number n] is exactly
    [n * (n + 1) / 2]: twice the result is [n * (n + 1)], so the floor
    division loses nothing, and it is the quotient itself; and
    [triangular_number 0 = 0]. *)
Theorem triangular_number_exact (n : Z) :
  0 <= n ->
  2 * triangular_number n = n * (n + 1)
  /\ triangular_number n = n * (n + 1) / 2
  /\ (n * (n + 1)) mod 2 = 0
  /\ triangular_number 0 = 0.
Proof.
  intros _. pose proof (triangular_number_double n) as D.
  repeat split; try exact D; try reflexivity.
  rewrite <- D. rewrite Z.mul_comm. apply Z.mod_mul. lia.
Qed.

Lemma triangular_number_exact_witness :
  0 <= 10000
  /\ 2 * triangular_number 10000 = 10000 * (10000 + 1)
  /\ triangular_number 10000 = 50005000.
Proof.
  split; [lia|].
  destruct (triangular_number_exact 10000) as (D & _); [lia|].
  split; [exact D | reflexivity].
Defined.

(** ** Inversion of the error monad *)

Lemma bind_Ok {A B : Type} (c : result A) (k : A -> result B) (b : B) :
  bind c k = Ok b -> exists a, c = Ok a /\ k a = Ok b.
Proof. destruct c as [a|e]; simpl; [eauto | discriminate]. Qed.

Lemma Ok_inj {A : Type} (a b : A) : Ok a = Ok b -> a = b.
Proof. intros H. now injection H. Qed.

(** ** The perfect-square test *)

Lemma is_perfect_square_negative (x : Z) :
  x < 0 -> is_perfect_square x = Ok false.
Proof.
  intros H. unfold is_perfect_square.
  destruct (Z.ltb_spec x 0); [reflexivity | lia].
Qed.

(** The test never accepts a number that is not a square: the candidate root
    is checked by an exact multiplication. *)
Lemma is_perfect_square_true (x : Z) :
  is_perfect_square x = Ok true ->
  0 <= x /\ exists root, Float.int_sqrt x = Ok root /\ root * root = x.
Proof.
  unfold is_perfect_square. intros H.
  destruct (Z.ltb_spec x 0); [discriminate|].
  apply bind_Ok in H. destruct H as (root & E & H).
  injection H as H. apply Z.eqb_eq in H. eauto.
Qed.

(** C8 (as amended): a negative index is not mapped to a zero sentinel:
    [triangular_number n] is [n * (n + 1) // 2] for every integer, which for
    [n < 0] is the triangular number of index [- n - 1]; it is [0] only at
    [n = -1].  No call in it can raise.  [is_perfect_square] returns [False]
    on every negative integer. *)
Theorem negative_input_results (n x : Z) :
  n < 0 -> x < 0 ->
  triangular_number n = triangular_number (- n - 1)
  /\ (triangular_number n = 0 <-> n = -1)
  /\ is_perfect_square x = Ok false.
Proof.
  intros Hn Hx.
  pose proof (triangular_number_double n) as D.
  pose proof (triangular_number_double (- n - 1)) as D'.
  split; [nia|]. split; [|now apply is_perfect_square_negative].
  split; intros H; [nia | subst n; reflexivity].
Qed.

Lemma negative_input_results_witness :
  -2 < 0 /\ -4 < 0
  /\ triangular_number (-2) = triangular_number 1
  /\ is_perfect_square (-4) = Ok false.
Proof.
  split; [lia|]. split; [lia|].
  destruct (negative_input_results (-2) (-4)) as (A & _ & B); [lia | lia |].
  split; [exact A | exact B].
Defined.

(** C8 as stated fails: [triangular_number(-2)] is [(-2) * (-1) // 2 = 1],
    not the zero sentinel. *)
Lemma triangular_number_negative_not_zero :
  -2 < 0 /\ triangular_number (-2) = 1 /\ triangular_number (-2) <> 0.
Proof. split; [lia|]. split; [reflexivity | discriminate]. Qed.

(** ** What a composite predicate returns *)

Lemma is_square_of_triangular_inv (x : Z) (b : bool) (n : Z) :
  is_square_of_triangular x = Ok (b, n) ->
  (b = false /\ n = 0)
  \/ (b = true /\ 0 < n /\
      triangular_number n * triangular_number n = x).
Proof.
  unfold is_square_of_triangular. intros H.
  apply bind_Ok in H. destruct H as (sq & Esq & H).
  destruct sq; simpl negb in H; cbv iota in H;
    [|injection H as <- <-; now left].
  apply is_perfect_square_true in Esq. destruct Esq as (_ & root & Er & Hr).
  rewrite Er in H. cbn [bind] in H.
  apply bind_Ok in H. destruct H as (dsq & _ & H).
  destruct dsq; simpl negb in H; cbv iota in H;
    [|injection H as <- <-; now left].
  apply bind_Ok in H. destruct H as (sd & _ & H). cbv zeta in H.
  match type of H with context [Z.max ?u ?v] => set (k := Z.max u v) in H end.
  destruct ((0 <? k) && (triangular_number k =? root)) eqn:C;
    [|injection H as <- <-; now left].
  injection H as <- <-. right.
  apply andb_prop in C. destruct C as [Hpos Heq].
  apply Z.ltb_lt in Hpos. apply Z.eqb_eq in Heq.
  split; [reflexivity|]. split; [exact Hpos|].
  rewrite Heq. exact Hr.
Qed.

Lemma difference_loop_inv (x : Z) (ns : list Z) (b : bool) (n m : Z) :
  difference_loop x ns = Ok (b, n, m) ->
  (b = false /\ n = 0 /\ m = 0)
  \/ (b = true /\ In n ns /\ n < m /\
      triangular_number m = triangular_number n + x).
Proof.
  induction ns as [|k ns IH]; simpl difference_loop; intros H.
  - injection H as <- <- <-. now left.
  - assert (R : forall r, difference_loop x ns = r -> r = Ok (b, n, m) ->
                (b = false /\ n = 0 /\ m = 0)
                \/ (b = true /\ (k = n \/ In n ns) /\ n < m /\
                    triangular_number m = triangular_number n + x)).
    { intros r <- Hr. destruct (IH Hr) as [L|(Hb & Hin & Hlt & Ht)];
        [now left | right; auto]. }
    apply bind_Ok in H. destruct H as (dsq & _ & H).
    destruct dsq; [|now apply (R _ eq_refl)].
    apply bind_Ok in H. destruct H as (sd & _ & H). cbv zeta in H.
    match type of H with context [Z.max ?u ?v] => set (j := Z.max u v) in H end.
    match type of H with (if ?c then _ else _) = _ => destruct c eqn:C end;
      [|now apply (R _ eq_refl)].
    injection H as <- <- <-. right.
    apply andb_prop in C. destruct C as [Hlt Heq].
    apply Z.ltb_lt in Hlt. apply Z.eqb_eq in Heq.
    simpl In. auto.
Qed.

Lemma nested_loop_inv (target : Z) (ns : list Z) (b : bool) (n : Z) :
  nested_loop target ns = (b, n) ->
  (b = false /\ n = 0)
  \/ (b = true /\ In n ns /\ T_of_T_squared n = target).
Proof.
  induction ns as [|k ns IH]; simpl nested_loop; intros H.
  - injection H as <- <-. now left.
  - destruct (Z.eqb_spec (T_of_T_squared k) target) as [Heq|Hne].
    + injection H as <- <-. right. simpl; auto.
    + destruct (Z.ltb_spec target (T_of_T_squared k)).
      * injection H as <- <-. now left.
      * destruct (IH H) as [L|(Hb & Hin & Ht)]; [now left|].
        right. simpl; auto.
Qed.

Lemma is_sum_of_consecutive_triangulars_inv (x : Z) (b : bool) (n : Z) :
  is_sum_of_consecutive_triangulars x = Ok (b, n) ->
  (b = false /\ n = 0)
  \/ (b = true /\ 0 < n /\ (n + 1) * (n + 1) = x).
Proof.
  unfold is_sum_of_consecutive_triangulars. intros H.
  apply bind_Ok in H. destruct H as (sq & _ & H).
  destruct sq; simpl negb in H; cbv iota in H;
    [|injection H as <- <-; now left].
  apply bind_Ok in H. destruct H as (sqrt_x & _ & H).
  destruct (Z.ltb_spec 0 (sqrt_x - 1)) as [Hpos|];
    [|injection H as <- <-; now left].
  match type of H with (if ?c then _ else _) = _ => destruct c eqn:C end;
    [|injection H as <- <-; now left].
  injection H as <- <-. right.
  apply Z.eqb_eq in C. rewrite consecutive_triangular_sum in C. auto.
Qed.


(** ** The two nested searches *)

Lemma T_of_T_squared_double (n : Z) :
  2 * T_of_T_squared n
  = triangular_number n * triangular_number n
    * (triangular_number n * triangular_number n + 1).
Proof. unfold T_of_T_squared. apply triangular_number_double. Qed.

(** [n |-> T_(T_n^2)] is strictly increasing from [0] on. *)
Lemma T_of_T_squared_lt (a b : Z) :
  0 <= a < b -> T_of_T_squared a < T_of_T_squared b.
Proof.
  intros H. unfold T_of_T_squared.
  pose proof (triangular_number_lt a b H) as Hlt.
  pose proof (triangular_number_nonneg a) as Ha.
  apply triangular_number_lt. nia.
Qed.

Lemma T_of_T_squared_inj (a b : Z) :
  0 <= a -> 0 <= b -> T_of_T_squared a = T_of_T_squared b -> a = b.
Proof.
  intros Ha Hb E.
  destruct (Z.lt_trichotomy a b) as [L|[L|L]]; [|exact L|].
  - pose proof (T_of_T_squared_lt a b). lia.
  - pose proof (T_of_T_squared_lt b a). lia.
Qed.

(** The loop reaches an index whose value is the target, once every index
    before it has a smaller value: neither the hit test nor the early exit
    fires on the way. *)
Lemma nested_loop_hit (target : Z) (pre post : list Z) (n : Z) :
  (forall k, In k pre -> T_of_T_squared k < target) ->
  T_of_T_squared n = target ->
  nested_loop target (pre ++ n :: post) = (true, n).
Proof.
  intros Hpre Hn. induction pre as [|p pre IH]; simpl.
  - rewrite Hn, Z.eqb_refl. reflexivity.
  - assert (Hp : T_of_T_squared p < target) by (apply Hpre; now left).
    destruct (Z.eqb_spec (T_of_T_squared p) target); [lia|].
    destruct (Z.ltb_spec target (T_of_T_squared p)); [lia|].
    apply IH. intros k Hk. apply Hpre. now right.
Qed.

(** The search over [range 1 hi] finds [n] exactly when [n] is in the range
    and its value is the target. *)
Lemma nested_loop_range (target hi n : Z) :
  nested_loop target (range 1 hi) = (true, n)
  <-> 1 <= n < hi /\ target = T_of_T_squared n.
Proof.
  split.
  - intros H. apply nested_loop_inv in H.
    destruct H as [[H _]|(_ & Hin & Ht)]; [discriminate|].
    apply In_range in Hin. auto.
  - intros [Hn Ht]. rewrite (range_split 1 n hi) by lia.
    apply nested_loop_hit; [|now symmetry].
    intros k Hk. apply In_range in Hk. rewrite Ht.
    apply T_of_T_squared_lt. lia.
Qed.

(** C6: for every integer [x >= 1],
    [is_triangular_of_square_of_triangular x] returns [(True, n)] if and
    only if [x = T_(T_n^2)] for some [n] in [[1, 20]], and returns
    [(False, 0)] when there is no such [n]; the early exit never misses a
    witness, because [n |-> T_(T_n^2)] is strictly increasing for
    [n >= 1]. *)
Theorem is_triangular_of_square_of_triangular_spec (x : Z) :
  1 <= x ->
  (forall n, is_triangular_of_square_of_triangular x = (true, n)
             <-> 1 <= n <= 20 /\ x = T_of_T_squared n)
  /\ ((forall n, 1 <= n <= 20 -> x <> T_of_T_squared n) ->
      is_triangular_of_square_of_triangular x = (false, 0))
  /\ (forall a b, 1 <= a -> a < b -> T_of_T_squared a < T_of_T_squared b).
Proof.
  intros _. unfold is_triangular_of_square_of_triangular. cbv zeta.
  change (20 + 1) with 21.
  split; [|split].
  - intros n. rewrite nested_loop_range. lia.
  - intros Hno.
    destruct (nested_loop x (range 1 21)) as [b n] eqn:E.
    destruct (nested_loop_inv _ _ _ _ E) as [[-> ->]|(-> & Hin & Ht)];
      [reflexivity|].
    apply In_range in Hin. exfalso. apply (Hno n); [lia | now symmetry].
  - intros a b Ha Hab. apply T_of_T_squared_lt. lia.
Qed.

Lemma is_triangular_of_square_of_triangular_spec_witness :
  1 <= 666
  /\ is_triangular_of_square_of_triangular 666 = (true, 3)
  /\ T_of_T_squared 3 < T_of_T_squared 4.
Proof.
  split; [lia|].
  destruct (is_triangular_of_square_of_triangular_spec 666) as (A & _ & M);
    [lia|].
  split.
  - apply A. split; [lia | reflexivity].
  - apply M; lia.
Defined.

(** Every value [T_(T_n^2)] with [n] in [[1, 10]] is far below [2^52], and
    the nested predicate finds its square. *)
Lemma nested_square_found (n : Z) :
  1 <= n <= 10 ->
  is_square_of_triangular_of_square_of_triangular
    (T_of_T_squared n * T_of_T_squared n) = Ok (true, n).
Proof.
  intros H.
  assert (C : n = 1 \/ n = 2 \/ n = 3 \/ n = 4 \/ n = 5 \/ n = 6 \/ n = 7
              \/ n = 8 \/ n = 9 \/ n = 10) by lia.
  repeat (destruct C as [->|C]; [vm_compute; reflexivity|]).
  subst n. vm_compute. reflexivity.
Qed.

(** C7 (as amended): [is_square_of_triangular_of_square_of_triangular x]
    returns [(True, n)] if and only if [x] is the square of an integer
    [r >= 0] on which [is_triangular_of_square_of_triangular] returns
    [(True, n)] with [n <= 10]: the nested search stops at index 10, the
    one-level search at 20. *)
Theorem nested_predicate_is_bounded_composition (x n : Z) :
  is_square_of_triangular_of_square_of_triangular x = Ok (true, n)
  <-> exists r, 0 <= r /\ r * r = x
                /\ is_triangular_of_square_of_triangular r = (true, n)
                /\ n <= 10.
Proof.
  split.
  - unfold is_square_of_triangular_of_square_of_triangular. intros H.
    apply bind_Ok in H. destruct H as (sq & Esq & H).
    destruct sq; simpl negb in H; cbv iota in H; [|discriminate].
    apply is_perfect_square_true in Esq.
    destruct Esq as (_ & root & Er & Hr).
    rewrite Er in H. cbn [bind] in H. cbv zeta in H.
    apply Ok_inj in H. change (10 + 1) with 11 in H.
    apply nested_loop_range in H. destruct H as [Hn Ht].
    exists root. split.
    { rewrite Ht. unfold T_of_T_squared. apply triangular_number_nonneg. }
    split; [exact Hr|]. split; [|lia].
    apply is_triangular_of_square_of_triangular_spec.
    + pose proof (T_of_T_squared_lt 0 n). change (T_of_T_squared 0) with 0 in *.
      lia.
    + lia.
  - intros (r & Hr & Hx & Hone & Hn).
    assert (Hr1 : 1 <= r \/ r = 0) by lia.
    destruct Hr1 as [Hr1| ->]; [|discriminate Hone].
    apply is_triangular_of_square_of_triangular_spec in Hone; [|exact Hr1].
    destruct Hone as [Hn' ->]. subst x.
    apply nested_square_found. lia.
Qed.

(** C7 as stated fails at [x = 9489546^2]: [x] is a perfect square, its root
    [9489546 = T_(T_11^2)] is accepted by the one-level predicate with index
    11, and the nested predicate, whose search ends at index 10, returns
    [(False, 0)]. *)
Lemma nested_predicate_misses_index_11 :
  let x := 9489546 * 9489546 in
  is_perfect_square x = Ok true
  /\ Float.int_sqrt x = Ok 9489546
  /\ is_triangular_of_square_of_triangular 9489546 = (true, 11)
  /\ is_square_of_triangular_of_square_of_triangular x = Ok (false, 0)
  /\ ~ (is_square_of_triangular_of_square_of_triangular x = Ok (true, 11)
        <-> exists r, 0 <= r /\ r * r = x
            /\ is_triangular_of_square_of_triangular r = (true, 11)).
Proof.
  cbv zeta.
  assert (E : is_square_of_triangular_of_square_of_triangular
                (9489546 * 9489546) = Ok (false, 0))
    by (vm_compute; reflexivity).
  assert (O : is_triangular_of_square_of_triangular 9489546 = (true, 11))
    by (vm_compute; reflexivity).
  split; [vm_compute; reflexivity|].
  split; [vm_compute; reflexivity|].
  split; [exact O|]. split; [exact E|].
  intros [_ B]. rewrite E in B.
  assert (F : Ok (false, 0) = Ok (true, 11)); [|discriminate F].
  apply B. exists 9489546.
  split; [lia|]. split; [reflexivity | exact O].
Qed.

(** ** The witness-sentinel invariant *)

(** C10: each composite predicate, whenever it returns, returns every
    witness field equal to [0] under the flag [False] and every witness
    index at least [1] under the flag [True]; index [0] is never reported
    as a witness. *)
Theorem witness_sentinel_invariant (x : Z) :
  (forall b n, is_square_of_triangular x = Ok (b, n) ->
               sentinel_invariant b [n])
  /\ (forall b n m, is_difference_of_triangulars x = Ok (b, n, m) ->
                    sentinel_invariant b [n; m])
  /\ (forall b n, is_triangular_of_square_of_triangular x = (b, n) ->
                  sentinel_invariant b [n])
  /\ (forall b n,
         is_square_of_triangular_of_square_of_triangular x = Ok (b, n) ->
         sentinel_invariant b [n])
  /\ (forall b n, is_sum_of_consecutive_triangulars x = Ok (b, n) ->
                  sentinel_invariant b [n]).
Proof.
  repeat split.
  - intros b n H. apply is_square_of_triangular_inv in H.
    destruct H as [[-> ->]|(-> & Hn & _)]; simpl;
      repeat constructor; lia.
  - intros b n m H. apply difference_loop_inv in H.
    destruct H as [(-> & -> & ->)|(-> & Hin & Hlt & _)]; simpl;
      repeat constructor; try apply In_range in Hin; lia.
  - intros b n H. apply nested_loop_inv in H.
    destruct H as [[-> ->]|(-> & Hin & _)]; simpl;
      repeat constructor; try apply In_range in Hin; lia.
  - intros b n H.
    unfold is_square_of_triangular_of_square_of_triangular in H.
    apply bind_Ok in H. destruct H as (sq & _ & H).
    destruct sq; simpl negb in H; cbv iota in H.
    + apply bind_Ok in H. destruct H as (sqrt_x & _ & H).
      apply Ok_inj, nested_loop_inv in H.
      destruct H as [[-> ->]|(-> & Hin & _)]; simpl;
        repeat constructor; try apply In_range in Hin; lia.
    + apply Ok_inj in H. injection H as <- <-. simpl. repeat constructor.
  - intros b n H. apply is_sum_of_consecutive_triangulars_inv in H.
    destruct H as [[-> ->]|(-> & Hn & _)]; simpl;
      repeat constructor; lia.
Qed.

Lemma witness_sentinel_invariant_witness :
  (is_square_of_triangular 9 = Ok (true, 2) /\ sentinel_invariant true [2])
  /\ (is_difference_of_triangulars 9 = Ok (true, 1, 4)
      /\ sentinel_invariant true [1; 4])
  /\ (is_triangular_of_square_of_triangular 9 = (false, 0)
      /\ sentinel_invariant false [0])
  /\ (is_square_of_triangular_of_square_of_triangular 9 = Ok (false, 0)
      /\ sentinel_invariant false [0])
  /\ (is_sum_of_consecutive_triangulars 9 = Ok (true, 2)
      /\ sentinel_invariant true [2]).
Proof.
  destruct (witness_sentinel_invariant 9) as (A & B & C & D & E).
  repeat split.
  - apply A. vm_compute. reflexivity.
  - apply B. vm_compute. reflexivity.
  - apply C. vm_compute. reflexivity.
  - apply D. vm_compute. reflexivity.
  - apply E. vm_compute. reflexivity.
Defined.

(** ** The smallest-solution driver *)

(** Whatever the list of candidates, a run of the loop that returns gives
    either [None], and then no candidate passes both tests, or the first
    candidate that passes both, with the witnesses the tests returned. *)
Lemma solution_loop_spec (xs : list Z) (r : option (Z * Z * Z * Z)) :
  solution_loop xs = Ok r ->
  match r with
  | None => forall y, In y xs -> ~ passes_both y
  | Some (x, n1, n2, m) =>
      is_square_of_triangular x = Ok (true, n1)
      /\ is_difference_of_triangulars x = Ok (true, n2, m)
      /\ exists pre post,
          xs = pre ++ x :: post /\ forall y, In y pre -> ~ passes_both y
  end.
Proof.
  revert r. induction xs as [|c xs IH]; intros r H.
  - simpl in H. apply Ok_inj in H. subst r. intros y [].
  - simpl solution_loop in H.
    assert (Skip : ~ passes_both c -> solution_loop xs = Ok r ->
              match r with
              | None => forall y, In y (c :: xs) -> ~ passes_both y
              | Some (x, n1, n2, m) =>
                  is_square_of_triangular x = Ok (true, n1)
                  /\ is_difference_of_triangulars x = Ok (true, n2, m)
                  /\ exists pre post,
                      c :: xs = pre ++ x :: post
                      /\ forall y, In y pre -> ~ passes_both y
              end).
    { intros Hc Hr. specialize (IH r Hr).
      destruct r as [[[[x n1] n2] m]|].
      - destruct IH as (A & B & pre & post & -> & Hpre).
        split; [exact A|]. split; [exact B|].
        exists (c :: pre), post. split; [reflexivity|].
        intros y [<-|Hy]; [exact Hc | now apply Hpre].
      - intros y [<-|Hy]; [exact Hc | now apply IH]. }
    apply bind_Ok in H. destruct H as ([is_square_tri n1] & E1 & H).
    destruct is_square_tri.
    + apply bind_Ok in H. destruct H as ([[is_diff_tri n2] m] & E2 & H).
      destruct is_diff_tri.
      * apply Ok_inj in H. subst r.
        split; [exact E1|]. split; [exact E2|].
        exists [], xs. split; [reflexivity | intros y []].
      * apply Skip; [|exact H].
        intros (a & b & d & _ & Hd). rewrite E2 in Hd. discriminate.
    + apply Skip; [|exact H].
      intros (a & b & d & Hs & _). rewrite E1 in Hs. discriminate.
Qed.

(** C9: the run of [find_smallest_solution] returns, without raising, the
    definite tuple [(9, 2, 1, 4)]; its [x = 9] lies in the scanned range,
    passes both predicates with the reported witnesses, and no smaller [x]
    of the range passes both. *)
Theorem find_smallest_solution_returns :
  find_smallest_solution = Ok (Some (9, 2, 1, 4))
  /\ 1 <= 9 <= 10000
  /\ is_square_of_triangular 9 = Ok (true, 2)
  /\ is_difference_of_triangulars 9 = Ok (true, 1, 4)
  /\ forall y, 1 <= y < 9 -> ~ passes_both y.
Proof.
  assert (R : find_smallest_solution = Ok (Some (9, 2, 1, 4)))
    by (vm_compute; reflexivity).
  split; [exact R|]. split; [lia|].
  assert (L : solution_loop (range 1 10001) = Ok (Some (9, 2, 1, 4)))
    by (vm_compute; reflexivity).
  destruct (solution_loop_spec _ _ L) as (A & B & pre & post & E & Hpre).
  split; [exact A|]. split; [exact B|].
  intros y Hy. apply Hpre.
  exact (range_prefix 1 10001 pre post 9 y E Hy).
Qed.

(** ** Small inputs: the floating-point root is the integer root *)

Module FloatFacts.

(** An integer below [2^53] is a double. *)
Lemma of_int_exact (x : Z) :
  0 <= x < 2 ^ 53 -> Float.of_int x = Ok x.
Proof.
  intros H. unfold Float.of_int, Float.bit_length, Float.prec. cbv zeta.
  destruct (Z.leb_spec x 0) as [H0|H0]; [reflexivity|].
  assert (L : Z.log2 x < 53) by (apply Z.log2_lt_pow2; lia).
  destruct (Z.leb_spec (Z.log2 x + 1) 53); [reflexivity | lia].
Qed.

(** Rounding [sqrt (x * P^2)] to the nearest integer and dividing by [P]
    gives the integer root of [x], as long as the root is below [P]. *)
Lemma rounded_root_floor (x P : Z) :
  0 <= x -> Z.sqrt x < P ->
  let n := x * (P * P) in
  let s := Z.sqrt n in
  (if s <? n - s * s then s + 1 else s) / P = Z.sqrt x.
Proof.
  intros Hx HP. cbv zeta.
  set (r := Z.sqrt x) in *. set (n := x * (P * P)).
  set (s := Z.sqrt n).
  assert (Hr0 : 0 <= r) by apply Z.sqrt_nonneg.
  assert (Hs0 : 0 <= s) by apply Z.sqrt_nonneg.
  assert (Hn0 : 0 <= n) by (unfold n; nia).
  pose proof (Z.sqrt_spec x Hx) as Hr. cbv zeta in Hr. fold r in Hr.
  pose proof (Z.sqrt_spec n Hn0) as Hs. cbv zeta in Hs. fold s in Hs.
  replace (Z.succ r) with (r + 1) in Hr by lia.
  replace (Z.succ s) with (s + 1) in Hs by lia.
  assert (HP0 : 0 < P) by lia.
  assert (HPP : 0 < P * P) by nia.
  assert (A1 : r * P * (r * P) <= n).
  { replace (r * P * (r * P)) with (r * r * (P * P)) by ring.
    unfold n. apply Z.mul_le_mono_nonneg_r; lia. }
  assert (A2 : n <= (r + 1) * P * ((r + 1) * P) - P * P).
  { replace ((r + 1) * P * ((r + 1) * P) - P * P)
      with (((r + 1) * (r + 1) - 1) * (P * P)) by ring.
    unfold n. apply Z.mul_le_mono_nonneg_r; lia. }
  assert (Lo : r * P <= s).
  { destruct (Z_le_gt_dec (r * P) s) as [|G]; [assumption|exfalso].
    assert ((s + 1) * (s + 1) <= (r * P) * (r * P))
      by (apply Z.square_le_mono_nonneg; lia).
    lia. }
  assert (Hi : s < (r + 1) * P).
  { destruct (Z_lt_ge_dec s ((r + 1) * P)) as [|G]; [assumption|exfalso].
    assert (((r + 1) * P) * ((r + 1) * P) <= s * s)
      by (apply Z.square_le_mono_nonneg; nia).
    lia. }
  assert (Up : s < n - s * s -> s + 1 < (r + 1) * P).
  { intros Hup.
    destruct (Z_lt_ge_dec (s + 1) ((r + 1) * P)) as [|G]; [assumption|exfalso].
    assert (Es : s + 1 = (r + 1) * P) by lia.
    rewrite <- Es in A2.
    assert (P * P < s + 1) by lia.
    assert (P * P < (r + 1) * P) by lia.
    assert (P < r + 1) by (apply Z.mul_lt_mono_pos_r with (p := P); lia).
    lia. }
  set (m := if s <? n - s * s then s + 1 else s).
  assert (Hm : r * P <= m < (r + 1) * P).
  { unfold m. destruct (Z.ltb_spec s (n - s * s)); [specialize (Up H)|]; lia. }
  symmetry. apply Z.div_unique with (m - r * P); [lia | ring].
Qed.

(** For [0 <= x < 2^52], [int(math.sqrt(x))] never raises and is the
    integer square root of [x]. *)
Lemma int_sqrt_small (x : Z) :
  0 <= x < 2 ^ 52 -> Float.int_sqrt x = Ok (Z.sqrt x).
Proof.
  intros H. unfold Float.int_sqrt, Float.math_sqrt.
  destruct (Z.ltb_spec x 0) as [|_]; [lia|].
  rewrite of_int_exact by lia. cbn [bind]. f_equal.
  unfold Float.sqrt, Float.to_int, Float.prec.
  destruct (Z.eqb_spec x 0) as [->|Hx0]; [reflexivity|]. cbv zeta.
  assert (L : 0 <= Z.log2 x < 52).
  { split; [apply Z.log2_nonneg | apply Z.log2_lt_pow2; lia]. }
  set (h := Z.log2 x / 2).
  assert (Hh : 0 <= h <= 25).
  { unfold h. split; [apply Z.div_pos; lia|].
    enough (Z.log2 x / 2 < 26) by lia.
    apply Z.div_lt_upper_bound; lia. }
  set (t := 52 - h).
  replace (h - (53 - 1)) with (- t) by (unfold t; lia).
  replace (- (2 * - t)) with (t + t) by lia.
  rewrite (Z.shiftl_mul_pow2 x (t + t)) by (unfold t; lia).
  rewrite (Z.shiftl_div_pow2 _ (- t)) by (unfold t; lia).
  rewrite Z.opp_involutive, Z.pow_add_r by (unfold t; lia).
  apply rounded_root_floor; [lia|].
  assert (Z.sqrt x < 2 ^ 26) by (apply Z.sqrt_lt_square; lia).
  assert (2 ^ 27 <= 2 ^ t) by (apply Z.pow_le_mono_r; unfold t; lia).
  lia.
Qed.


(** Rounding to a multiple of [2^k]: the result is a multiple of [2^k] at
    most half a unit away. *)
Lemma round_half_even_spec (x k : Z) :
  0 <= x -> 0 < k ->
  exists q,
    Z.shiftl (Float.round_half_even x k) k = q * 2 ^ k
    /\ 0 <= q
    /\ x - 2 ^ (k - 1) <= q * 2 ^ k <= x + 2 ^ (k - 1).
Proof.
  intros Hx Hk. unfold Float.round_half_even. cbv zeta.
  rewrite Z.shiftr_div_pow2 by lia.
  rewrite !Z.shiftl_mul_pow2 by lia. rewrite Z.mul_1_l.
  assert (HS : 2 ^ k = 2 * 2 ^ (k - 1)).
  { replace k with (Z.succ (k - 1)) at 1 by lia.
    rewrite Z.pow_succ_r by lia. reflexivity. }
  assert (HD : 0 < 2 ^ (k - 1)) by (apply Z.pow_pos_nonneg; lia).
  set (S := 2 ^ k) in *. set (D := 2 ^ (k - 1)) in *.
  pose proof (Z.div_mod x S ltac:(lia)) as E.
  pose proof (Z.mod_pos_bound x S ltac:(lia)) as B.
  assert (Hq : 0 <= x / S) by (apply Z.div_pos; lia).
  set (q := x / S) in *. set (r := x mod S) in *.
  replace (x - q * S) with r by lia.
  destruct ((D <? r) || ((r =? D) && Z.odd q)) eqn:C.
  - exists (q + 1). split; [reflexivity|]. split; [lia|].
    assert (D <= r).
    { apply orb_prop in C. destruct C as [C|C].
      - apply Z.ltb_lt in C. lia.
      - apply andb_prop in C. destruct C as [C _]. apply Z.eqb_eq in C. lia. }
    lia.
  - exists q. split; [reflexivity|]. split; [lia|].
    apply orb_false_elim in C. destruct C as [C _].
    apply Z.ltb_ge in C. lia.
Qed.


(** When [f] is within [d] of [k^2] and [d * P^2 < k * P], the integer
    nearest to [sqrt (f * P^2)] is [k * P]. *)
Lemma rounded_root_near_square (k f P d : Z) :
  0 <= k -> 1 <= P -> 0 <= d ->
  k * k - d <= f <= k * k + d ->
  d * (P * P) + 1 <= k * P ->
  let n := f * (P * P) in
  let s := Z.sqrt n in
  (if s <? n - s * s then s + 1 else s) = k * P.
Proof.
  intros Hk HP Hd Hf Hsmall. cbv zeta.
  set (a := k * P) in *. set (n := f * (P * P)).
  assert (HPP : 0 < P * P) by nia.
  assert (Lo : a * a - a + 1 <= n).
  { assert ((k * k - d) * (P * P) <= n)
      by (unfold n; apply Z.mul_le_mono_nonneg_r; lia).
    replace ((k * k - d) * (P * P)) with (a * a - d * (P * P)) in *
      by (unfold a; ring).
    lia. }
  assert (Hi : n <= a * a + a - 1).
  { assert (n <= (k * k + d) * (P * P))
      by (unfold n; apply Z.mul_le_mono_nonneg_r; lia).
    replace ((k * k + d) * (P * P)) with (a * a + d * (P * P)) in *
      by (unfold a; ring).
    lia. }
  assert (Ha : 1 <= a) by nia.
  assert (Hn0 : 0 <= n) by nia.
  pose proof (Z.sqrt_spec n Hn0) as Hs. cbv zeta in Hs.
  pose proof (Z.sqrt_nonneg n) as Hs0.
  set (s := Z.sqrt n) in *.
  replace (Z.succ s) with (s + 1) in Hs by lia.
  assert (a - 1 <= s).
  { destruct (Z_le_gt_dec (a - 1) s); [assumption|exfalso].
    assert ((s + 1) * (s + 1) <= (a - 1) * (a - 1))
      by (apply Z.square_le_mono_nonneg; lia).
    nia. }
  assert (s <= a).
  { destruct (Z_le_gt_dec s a); [assumption|exfalso].
    assert ((a + 1) * (a + 1) <= s * s)
      by (apply Z.square_le_mono_nonneg; lia).
    nia. }
  assert (C : s = a - 1 \/ s = a) by lia.
  destruct C as [C|C]; rewrite C in *.
  - destruct (Z.ltb_spec (a - 1) (n - (a - 1) * (a - 1))); nia.
  - destruct (Z.ltb_spec a (n - a * a)); nia.
Qed.

(** The square of [k < 2^53], as long as it is below [2^53] itself, is a
    double and its root is exact. *)
Lemma sqrt_of_exact_square (k : Z) :
  0 < k -> k * k < 2 ^ 106 ->
  Float.to_int (Float.sqrt (k * k)) = k.
Proof.
  intros Hk Hb. unfold Float.sqrt, Float.to_int, Float.prec.
  destruct (Z.eqb_spec (k * k) 0) as [E|_]; [nia|]. cbv zeta.
  assert (L : 0 <= Z.log2 (k * k) < 106).
  { split; [apply Z.log2_nonneg | apply Z.log2_lt_pow2; nia]. }
  set (h := Z.log2 (k * k) / 2).
  assert (Hh : 0 <= h <= 52).
  { unfold h. split; [apply Z.div_pos; lia|].
    enough (Z.log2 (k * k) / 2 < 53) by lia.
    apply Z.div_lt_upper_bound; lia. }
  set (t := 52 - h).
  replace (h - (53 - 1)) with (- t) by (unfold t; lia).
  replace (- (2 * - t)) with (t + t) by lia.
  rewrite (Z.shiftl_mul_pow2 (k * k) (t + t)) by (unfold t; lia).
  rewrite (Z.shiftl_div_pow2 _ (- t)) by (unfold t; lia).
  rewrite Z.opp_involutive, Z.pow_add_r by (unfold t; lia).
  assert (HP : 0 < 2 ^ t) by (apply Z.pow_pos_nonneg; unfold t; lia).
  set (P := 2 ^ t) in *.
  replace (k * k * (P * P)) with ((k * P) * (k * P)) by ring.
  rewrite Z.sqrt_square by nia.
  replace (k * P * (k * P) - k * P * (k * P)) with 0 by ring.
  destruct (Z.ltb_spec (k * P) 0); [nia|].
  apply Z.div_mul. lia.
Qed.


(** The square of an integer below [2^53] goes through [float] and
    [math.sqrt] and comes back: rounding to 53 bits moves [k^2] by less than
    [k] units of the last place of the root. *)
Lemma int_sqrt_of_square_wide (k : Z) :
  0 <= k < 2 ^ 53 -> Float.int_sqrt (k * k) = Ok k.
Proof.
  intros Hk.
  destruct (Z.eq_dec k 0) as [->|Hk0]; [reflexivity|].
  unfold Float.int_sqrt, Float.math_sqrt.
  destruct (Z.ltb_spec (k * k) 0) as [|_]; [nia|].
  destruct (Z_lt_ge_dec (k * k) (2 ^ 53)) as [Hs|Hl].
  { rewrite of_int_exact by nia. cbn [bind]. f_equal.
    apply sqrt_of_exact_square; [lia|]. 
    apply Z.lt_trans with (2 ^ 53); [exact Hs | reflexivity]. }
  set (x := k * k) in *.
  assert (Hx : 0 < x) by lia.
  pose proof (Z.log2_spec x Hx) as HL.
  assert (HL53 : 53 <= Z.log2 x) by (apply Z.log2_le_pow2; lia).
  assert (HL106 : Z.log2 x < 106).
  { apply Z.log2_lt_pow2; [lia|].
    assert (k * k < 2 ^ 53 * 2 ^ 53) by (apply Z.square_lt_mono_nonneg; lia).
    change (2 ^ 106) with (2 ^ 53 * 2 ^ 53). exact H. }
  set (L := Z.log2 x) in *.
  replace (Z.succ L) with (L + 1) in HL by lia.
  (* the exponents *)
  set (h := L / 2).
  assert (Hpar : L = 2 * h \/ L = 2 * h + 1).
  { unfold h. pose proof (Z.div_mod L 2 ltac:(lia)).
    pose proof (Z.mod_pos_bound L 2 ltac:(lia)). lia. }
  assert (Hh : 26 <= h <= 52) by lia.
  set (t := 52 - h). set (sh := L - 52).
  assert (Ht : 0 <= t <= 26) by (unfold t; lia).
  assert (Hsh : 1 <= sh) by (unfold sh; lia).
  (* float(x) *)
  unfold Float.of_int, Float.bit_length, Float.prec, Float.emax. cbv zeta.
  destruct (Z.leb_spec x 0) as [|_]; [lia|]. fold L.
  destruct (Z.leb_spec (L + 1) 53) as [|_]; [lia|].
  replace (L + 1 - 53) with sh by (unfold sh; lia).
  destruct (round_half_even_spec x sh) as (q & -> & Hq & Hnear); [lia|lia|].
  (* the powers of two at hand *)
  assert (HA : 0 < 2 ^ h) by (apply Z.pow_pos_nonneg; lia).
  assert (HP : 0 < 2 ^ t) by (apply Z.pow_pos_nonneg; lia).
  assert (HD : 0 < 2 ^ (sh - 1)) by (apply Z.pow_pos_nonneg; lia).
  assert (HS : 2 ^ sh = 2 * 2 ^ (sh - 1)).
  { replace sh with (Z.succ (sh - 1)) at 1 by lia.
    rewrite Z.pow_succ_r by lia. reflexivity. }
  assert (HAP : 2 ^ h * 2 ^ t = 2 ^ 52).
  { rewrite <- Z.pow_add_r by lia. f_equal. unfold t. lia. }
  assert (HDA : 2 ^ (sh - 1) <= 2 ^ h)
    by (apply Z.pow_le_mono_r; unfold sh; lia).
  assert (HLA : 2 ^ h * 2 ^ h <= 2 ^ L)
    by (rewrite <- Z.pow_add_r by lia; apply Z.pow_le_mono_r; lia).
  assert (HLB : 2 ^ (L + 1) <= 4 * (2 ^ h * 2 ^ h)).
  { change 4 with (2 ^ 2). rewrite <- !Z.pow_add_r by lia.
    apply Z.pow_le_mono_r; lia. }
  assert (HSA : exists c, 2 ^ h * 2 ^ h = c * 2 ^ sh).
  { exists (2 ^ (h + h - sh)). rewrite <- !Z.pow_add_r by (unfold sh; lia).
    f_equal. lia. }
  assert (HDP : 2 ^ (sh - 1) * (2 ^ t * 2 ^ t) * (2 ^ h * 2 ^ h)
                = 2 ^ L * 2 ^ 51).
  { rewrite <- !Z.pow_add_r by lia. f_equal. unfold sh, t. lia. }
  set (A := 2 ^ h) in *. set (P := 2 ^ t) in *.
  set (S := 2 ^ sh) in *. set (D := 2 ^ (sh - 1)) in *.
  set (F := q * S) in *.
  (* float(x) stays in the binade pair of x *)
  assert (HFlo : A * A <= F).
  { destruct HSA as (c & Hc). rewrite Hc in *. unfold F.
    destruct (Z_le_gt_dec c q) as [|G];
      [apply Z.mul_le_mono_nonneg_r; lia | exfalso].
    assert (q * S <= (c - 1) * S) by (apply Z.mul_le_mono_nonneg_r; lia).
    lia. }
  assert (HkA : k < 2 * A).
  { apply Z.square_lt_simpl_nonneg; [lia|]. fold x. lia. }
  assert (HFhi : F < 4 * (A * A)).
  { assert (x <= (2 * A - 1) * (2 * A - 1))
      by (unfold x; apply Z.square_le_mono_nonneg; lia).
    lia. }
  assert (HlogF : Z.log2 F / 2 = h).
  { assert (2 ^ (2 * h) <= F).
    { replace (2 * h) with (h + h) by lia. rewrite Z.pow_add_r by lia.
      exact HFlo. }
    assert (F < 2 ^ (2 * h + 2)).
    { replace (2 * h + 2) with (2 + (h + h)) by lia.
      rewrite !Z.pow_add_r by lia. exact HFhi. }
    assert (2 * h <= Z.log2 F) by (apply Z.log2_le_pow2; lia).
    assert (Z.log2 F < 2 * h + 2) by (apply Z.log2_lt_pow2; lia).
    symmetry. apply Z.div_unique with (Z.log2 F - 2 * h); lia. }
  (* no overflow *)
  rewrite Z.shiftl_mul_pow2 by lia. rewrite Z.mul_1_l.
  assert (HF106 : F < 2 ^ 1024).
  { apply Z.lt_le_trans with (4 * (A * A)); [exact HFhi|].
    apply Z.le_trans with (2 ^ 106); [|apply Z.pow_le_mono_r; lia].
    assert (A <= 2 ^ 52) by (apply Z.pow_le_mono_r; lia).
    assert (A * A <= 2 ^ 52 * 2 ^ 52)
      by (apply Z.square_le_mono_nonneg; lia).
    change (2 ^ 106) with (4 * (2 ^ 52 * 2 ^ 52)). lia. }
  destruct (Z.leb_spec (2 ^ 1024) F) as [|_]; [lia|].
  cbn [bind]. f_equal.
  (* the root *)
  unfold Float.sqrt, Float.to_int, Float.prec.
  destruct (Z.eqb_spec F 0) as [|_]; [lia|]. cbv zeta.
  rewrite HlogF.
  replace (h - (53 - 1)) with (- t) by (unfold t; lia).
  replace (- (2 * - t)) with (t + t) by lia.
  rewrite (Z.shiftl_mul_pow2 F (t + t)) by lia.
  rewrite (Z.shiftl_div_pow2 _ (- t)) by lia.
  rewrite Z.opp_involutive, Z.pow_add_r by lia. fold P.
  rewrite (rounded_root_near_square k F P D); try lia.
  - apply Z.div_mul. lia.
  - (* D * P^2 + 1 <= k * P *)
    assert (HkP : (k * P) * (k * P) = x * (P * P)) by (unfold x; ring).
    assert (HxP : 2 ^ L * (P * P) <= (k * P) * (k * P)).
    { rewrite HkP. apply Z.mul_le_mono_nonneg_r; [|lia].
      apply Z.mul_nonneg_nonneg; lia. }
    assert (HkP0 : 0 <= k * P) by (apply Z.mul_nonneg_nonneg; lia).
    assert (H52 : 2 ^ 52 * 2 ^ 52 = (A * A) * (P * P)).
    { rewrite <- HAP. ring. }
    destruct Hpar as [E|E].
    + assert (HDv : D * (P * P) = 2 ^ 51).
      { unfold D, P. rewrite <- !Z.pow_add_r by lia. f_equal.
        unfold sh, t. lia. }
      assert (HLv : 2 ^ L = A * A).
      { unfold A. rewrite <- Z.pow_add_r by lia. f_equal. lia. }
      rewrite HDv.
      destruct (Z_le_gt_dec (2 ^ 52) (k * P)) as [|G]; [lia|exfalso].
      assert ((k * P) * (k * P) < 2 ^ 52 * 2 ^ 52)
        by (apply Z.square_lt_mono_nonneg; lia).
      rewrite HLv in HxP. lia.
    + assert (HDv : D * (P * P) = 2 ^ 52).
      { unfold D, P. rewrite <- !Z.pow_add_r by lia. f_equal.
        unfold sh, t. lia. }
      assert (HLv : 2 ^ L = 2 * (A * A)).
      { unfold A. change 2 with (2 ^ 1) at 2.
        rewrite <- !Z.pow_add_r by lia. f_equal. lia. }
      rewrite HDv.
      destruct (Z_le_gt_dec (2 ^ 52 + 1) (k * P)) as [|G]; [lia|exfalso].
      assert ((k * P) * (k * P) <= 2 ^ 52 * 2 ^ 52)
        by (apply Z.square_le_mono_nonneg; lia).
      rewrite HLv in HxP. lia.
Qed.


(** [float(x)] is defined for every [0 <= x < 2^1023], so
    [int(math.sqrt(x))] returns there. *)
Lemma int_sqrt_defined (x : Z) :
  0 <= x < 2 ^ 1023 -> exists r, Float.int_sqrt x = Ok r.
Proof.
  intros Hx. unfold Float.int_sqrt, Float.math_sqrt.
  destruct (Z.ltb_spec x 0) as [|_]; [lia|].
  enough (exists f, Float.of_int x = Ok f) as (f & ->) by (cbn [bind]; eauto).
  unfold Float.of_int, Float.bit_length, Float.prec, Float.emax. cbv zeta.
  destruct (Z.leb_spec x 0) as [|H0]; [cbn; eauto|].
  destruct (Z.leb_spec (Z.log2 x + 1) 53) as [|Hb]; [eauto|].
  assert (HL : Z.log2 x < 1023) by (apply Z.log2_lt_pow2; lia).
  set (sh := Z.log2 x + 1 - 53) in *.
  destruct (round_half_even_spec x sh) as (q & -> & Hq & Hnear);
    [lia | unfold sh; lia |].
  rewrite Z.shiftl_mul_pow2 by lia. rewrite Z.mul_1_l.
  assert (2 ^ (sh - 1) <= 2 ^ 1023)
    by (apply Z.pow_le_mono_r; unfold sh; lia).
  change (2 ^ 1024) with (2 ^ 1023 + 2 ^ 1023).
  destruct (Z.leb_spec (2 ^ 1023 + 2 ^ 1023) (q * 2 ^ sh)); [lia | eauto].
Qed.

End FloatFacts.

(** ** The toolkit where the floating-point root is exact *)

(** On [0 <= x < 2^52] the candidate root is the integer square root. *)
Lemma is_perfect_square_small (x : Z) :
  0 <= x < 2 ^ 52 ->
  is_perfect_square x = Ok (Z.sqrt x * Z.sqrt x =? x).
Proof.
  intros H. unfold is_perfect_square.
  destruct (Z.ltb_spec x 0) as [|_]; [lia|].
  now rewrite FloatFacts.int_sqrt_small.
Qed.

Lemma int_sqrt_of_square (k : Z) :
  0 <= k -> k * k < 2 ^ 106 -> Float.int_sqrt (k * k) = Ok k.
Proof.
  intros Hk Hb. apply FloatFacts.int_sqrt_of_square_wide.
  split; [exact Hk|].
  apply Z.square_lt_simpl_nonneg; [lia|].
  change (2 ^ 53 * 2 ^ 53) with (2 ^ 106). exact Hb.
Qed.

(** Every square [k^2] with [0 <= k <= 2^53] is accepted; [2^53 + 1] is the
    first root whose square is rejected. *)
Lemma is_perfect_square_of_square (k : Z) :
  0 <= k <= 2 ^ 53 -> is_perfect_square (k * k) = Ok true.
Proof.
  intros Hk.
  destruct (Z.eq_dec k (2 ^ 53)) as [->|Hne]; [vm_compute; reflexivity|].
  unfold is_perfect_square.
  destruct (Z.ltb_spec (k * k) 0) as [|_]; [nia|].
  rewrite FloatFacts.int_sqrt_of_square_wide by lia. cbn [bind].
  now rewrite Z.eqb_refl.
Qed.

(** On [0 <= x < 2^106] the test is exact: it returns, and it returns
    [True] precisely on the perfect squares. *)
Lemma is_perfect_square_exact (x : Z) :
  0 <= x < 2 ^ 106 ->
  is_perfect_square x = Ok (Z.sqrt x * Z.sqrt x =? x).
Proof.
  intros Hx.
  destruct (Z.eqb_spec (Z.sqrt x * Z.sqrt x) x) as [E|N].
  - rewrite <- E. apply is_perfect_square_of_square.
    pose proof (Z.sqrt_nonneg x).
    assert (Z.sqrt x < 2 ^ 53).
    { apply Z.sqrt_lt_square; [lia | lia |].
      change (2 ^ 53 * 2 ^ 53) with (2 ^ 106). lia. }
    lia.
  - unfold is_perfect_square.
    destruct (Z.ltb_spec x 0) as [|_]; [lia|].
    destruct (FloatFacts.int_sqrt_defined x) as (r & ->).
    { split; [lia|]. apply Z.lt_trans with (2 ^ 106); [lia | reflexivity]. }
    cbn [bind]. f_equal.
    destruct (Z.eqb_spec (r * r) x) as [E|_]; [|reflexivity].
    exfalso. apply N. rewrite <- E.
    replace (r * r) with (Z.abs r * Z.abs r) by nia.
    rewrite Z.sqrt_square by lia. reflexivity.
Qed.

(** Hence, below [2^106], [is_perfect_square x] is [True] if and only if
    [x] is the square of an integer. *)
Lemma is_perfect_square_iff (x : Z) :
  x < 2 ^ 106 ->
  is_perfect_square x = Ok true <-> 0 <= x /\ exists r, r * r = x.
Proof.
  intros Hx. split.
  - intros H. apply is_perfect_square_true in H.
    destruct H as (H0 & r & _ & Hr). eauto.
  - intros (H0 & r & Hr). rewrite is_perfect_square_exact by lia.
    f_equal. apply Z.eqb_eq. rewrite <- Hr.
    replace (r * r) with (Z.abs r * Z.abs r) by nia.
    rewrite Z.sqrt_square by lia. reflexivity.
Qed.

(** The discriminant of the inverse-triangular lookup at [T_m]. *)
Lemma discriminant_of_triangular (m : Z) :
  1 + 8 * triangular_number m = (2 * m + 1) * (2 * m + 1).
Proof. pose proof (triangular_number_double m). lia. Qed.

(** The two roots of the quadratic, and the one the code keeps. *)
Lemma positive_root (m : Z) :
  0 <= m ->
  Z.max ((-1 + (2 * m + 1)) / 2) ((-1 - (2 * m + 1)) / 2) = m.
Proof.
  intros Hm.
  replace (-1 + (2 * m + 1)) with (m * 2) by ring.
  replace (-1 - (2 * m + 1)) with ((- m - 1) * 2) by ring.
  rewrite !Z.div_mul by lia. lia.
Qed.

(** Where the floating-point root is exact, the inverse-triangular round
    trip holds: [is_square_of_triangular (T_n^2) = (True, n)]. *)
Lemma is_square_of_triangular_round_trip_exact (n : Z) :
  1 <= n ->
  triangular_number n * triangular_number n < 2 ^ 106 ->
  is_square_of_triangular (triangular_number n * triangular_number n)
  = Ok (true, n).
Proof.
  intros Hn Hb. unfold is_square_of_triangular.
  pose proof (triangular_number_nonneg n) as HT.
  assert (HT53 : triangular_number n < 2 ^ 53).
  { apply Z.square_lt_simpl_nonneg; [lia|].
    change (2 ^ 53 * 2 ^ 53) with (2 ^ 106). exact Hb. }
  rewrite is_perfect_square_of_square by lia. cbn [bind negb].
  rewrite int_sqrt_of_square by assumption. cbn [bind]. cbv zeta.
  rewrite discriminant_of_triangular.
  assert (Hd : 2 * n + 1 < 2 ^ 53).
  { apply Z.square_lt_simpl_nonneg; [lia|].
    rewrite <- discriminant_of_triangular. nia. }
  rewrite is_perfect_square_of_square by lia. cbn [bind negb].
  rewrite FloatFacts.int_sqrt_of_square_wide by lia. cbn [bind].
  rewrite positive_root by lia.
  destruct (Z.ltb_spec 0 n); [|lia]. rewrite Z.eqb_refl. reflexivity.
Qed.

(** On that range [is_sum_of_consecutive_triangulars x] is [(True, k - 1)]
    exactly on the squares [k^2] with [k >= 2]. *)
Lemma is_sum_of_consecutive_triangulars_exact (x n : Z) :
  x < 2 ^ 106 ->
  is_sum_of_consecutive_triangulars x = Ok (true, n)
  <-> 1 <= n /\ x = (n + 1) * (n + 1).
Proof.
  intros Hb. split.
  - intros H. apply is_sum_of_consecutive_triangulars_inv in H.
    destruct H as [[H _]|(_ & Hn & Hx)]; [discriminate | lia].
  - intros [Hn ->]. unfold is_sum_of_consecutive_triangulars.
    assert (n + 1 < 2 ^ 53).
    { apply Z.square_lt_simpl_nonneg; [lia|].
      change (2 ^ 53 * 2 ^ 53) with (2 ^ 106). exact Hb. }
    rewrite is_perfect_square_of_square by lia. cbn [bind negb].
    rewrite int_sqrt_of_square by (assumption || lia). cbn [bind]. cbv zeta.
    replace (n + 1 - 1) with n by lia.
    destruct (Z.ltb_spec 0 n); [|lia].
    rewrite consecutive_triangular_sum, Z.eqb_refl. reflexivity.
Qed.

(** One turn of the loop of [is_difference_of_triangulars]. *)
Lemma difference_loop_cons (x n : Z) (ns : list Z) :
  difference_loop x (n :: ns)
  = (dsq <- is_perfect_square (1 + 8 * (triangular_number n + x)) ;;
     if dsq then
       sd <- Float.int_sqrt (1 + 8 * (triangular_number n + x)) ;;
       if (n <? Z.max ((-1 + sd) / 2) ((-1 - sd) / 2))
          && (triangular_number (Z.max ((-1 + sd) / 2) ((-1 - sd) / 2))
              =? triangular_number n + x)
       then Ok (true, n, Z.max ((-1 + sd) / 2) ((-1 - sd) / 2))
       else difference_loop x ns
     else difference_loop x ns).
Proof. reflexivity. Qed.

Section DifferenceSearch.

Variable x : Z.

Lemma difference_loop_hit (n m : Z) (ns : list Z) :
  in_exact_range x n -> n < m ->
  triangular_number m = triangular_number n + x ->
  difference_loop x (n :: ns) = Ok (true, n, m).
Proof.
  intros [Hn Hb] Hm Ht. rewrite difference_loop_cons.
  rewrite <- Ht in *. rewrite discriminant_of_triangular in *.
  assert (H53 : 2 * m + 1 < 2 ^ 53).
  { apply Z.square_lt_simpl_nonneg; [lia|].
    change (2 ^ 53 * 2 ^ 53) with (2 ^ 106). lia. }
  rewrite is_perfect_square_of_square by lia. cbn [bind].
  rewrite int_sqrt_of_square by lia. cbn [bind].
  rewrite positive_root by lia.
  destruct (Z.ltb_spec n m); [|lia]. rewrite Z.eqb_refl. reflexivity.
Qed.

Lemma difference_loop_skip (n : Z) (ns : list Z) :
  in_exact_range x n -> ~ has_partner x n ->
  difference_loop x (n :: ns) = difference_loop x ns.
Proof.
  intros [Hn Hb] Hno. rewrite difference_loop_cons.
  rewrite is_perfect_square_exact by exact Hb. cbn [bind].
  set (d := 1 + 8 * (triangular_number n + x)) in *.
  destruct (Z.eqb_spec (Z.sqrt d * Z.sqrt d) d) as [E|_]; [|reflexivity].
  rewrite <- E at 1.
  rewrite int_sqrt_of_square by (rewrite ?E; lia || apply Z.sqrt_nonneg).
  cbn [bind].
  set (j := Z.max _ _).
  destruct ((n <? j) && (triangular_number j =? triangular_number n + x))
    eqn:C; [|reflexivity].
  exfalso. apply Hno. exists j.
  apply andb_prop in C. destruct C as [C1 C2].
  apply Z.ltb_lt in C1. apply Z.eqb_eq in C2. auto.
Qed.

Lemma difference_loop_skip_all (pre rest : list Z) :
  (forall k, In k pre -> in_exact_range x k /\ ~ has_partner x k) ->
  difference_loop x (pre ++ rest) = difference_loop x rest.
Proof.
  intros H. induction pre as [|p pre IH]; [reflexivity|].
  rewrite <- app_comm_cons.
  rewrite difference_loop_skip by (apply H; now left).
  apply IH. intros k Hk. apply H. now right.
Qed.

(** A successful search stopped at the first index that has a partner. *)
Lemma difference_loop_first (ns : list Z) (n m : Z) :
  (forall k, In k ns -> in_exact_range x k) ->
  difference_loop x ns = Ok (true, n, m) ->
  exists pre post,
    ns = pre ++ n :: post /\ forall k, In k pre -> ~ has_partner x k.
Proof.
  induction ns as [|c ns IH]; intros Hr H; [discriminate|].
  destruct (Z.eq_dec c n) as [->|Hne].
  - exists [], ns. split; [reflexivity | intros k []].
  - assert (Hc : ~ has_partner x c).
    { intros (m' & Hlt & Ht).
      rewrite (difference_loop_hit c m' ns) in H; auto.
      - injection H as Hcn _. contradiction.
      - apply Hr. now left. }
    rewrite difference_loop_skip in H; [|apply Hr; now left|exact Hc].
    destruct IH as (pre & post & -> & Hpre);
      [intros k Hk; apply Hr; now right | exact H |].
    exists (c :: pre), post. split; [reflexivity|].
    intros k [<-|Hk]; [exact Hc | now apply Hpre].
Qed.

End DifferenceSearch.

(** For [1 <= x <= 2^102] every discriminant of the search is below
    [2^106]. *)
Lemma search_in_exact_range (x n : Z) :
  1 <= x <= 2 ^ 102 -> 1 <= n <= 1000 -> in_exact_range x n.
Proof.
  intros Hx Hn. unfold in_exact_range.
  pose proof (triangular_number_nonneg n).
  assert (triangular_number n <= triangular_number 1000).
  { destruct (Z.eq_dec n 1000) as [->|]; [lia|].
    pose proof (triangular_number_lt n 1000). lia. }
  change (triangular_number 1000) with 500500 in *. lia.
Qed.

(** Where the floating-point root is exact,
    [is_difference_of_triangulars x] returns [(True, n, m)] for the smallest
    [n] of [[1, 1000]] such that [T_n + x = T_m] with [m > n], and
    [(False, 0, 0)] when there is no such [n]. *)
Lemma is_difference_of_triangulars_exact (x : Z) :
  1 <= x <= 2 ^ 102 ->
  (forall n m,
      is_difference_of_triangulars x = Ok (true, n, m)
      <-> 1 <= n <= 1000 /\ n < m
          /\ triangular_number m - triangular_number n = x
          /\ forall k, 1 <= k < n -> ~ has_partner x k)
  /\ ((forall k, 1 <= k <= 1000 -> ~ has_partner x k) ->
      is_difference_of_triangulars x = Ok (false, 0, 0)).
Proof.
  intros Hx. unfold is_difference_of_triangulars. cbv zeta.
  change (1000 + 1) with 1001.
  assert (Hr : forall k, In k (range 1 1001) -> in_exact_range x k).
  { intros k Hk. apply In_range in Hk.
    apply search_in_exact_range; lia. }
  split.
  - intros n m. split.
    + intros H.
      destruct (difference_loop_inv _ _ _ _ _ H)
        as [(Hb & _)|(_ & Hin & Hlt & Ht)]; [discriminate|].
      apply In_range in Hin.
      split; [lia|]. split; [exact Hlt|]. split; [lia|].
      destruct (difference_loop_first x _ _ _ Hr H)
        as (pre & post & E & Hpre).
      intros k Hk. apply Hpre.
      exact (range_prefix 1 1001 pre post n k E Hk).
    + intros (Hn & Hlt & Ht & Hmin).
      rewrite (range_split 1 n 1001) by lia.
      rewrite difference_loop_skip_all.
      * apply difference_loop_hit; [|exact Hlt|lia].
        apply search_in_exact_range; lia.
      * intros k Hk. apply In_range in Hk.
        split; [apply search_in_exact_range; lia | apply Hmin; lia].
  - intros Hno.
    rewrite <- (app_nil_r (range 1 1001)).
    rewrite difference_loop_skip_all; [reflexivity|].
    intros k Hk. split; [now apply Hr|].
    apply In_range in Hk. apply Hno. lia.
Qed.

(** ** Large inputs: the floating-point root *)

(** From [2^1024] on (and already for the integers that round to it)
    the conversion to a double raises. *)
Example is_perfect_square_overflow :
  is_perfect_square (2 ^ 1024) = Raise OverflowError
  /\ is_perfect_square (2 ^ 1024 - 1) = Raise OverflowError.
Proof. split; vm_compute; reflexivity. Qed.

(** C1 at [x = (2^53 + 1)^2]: [x] is a perfect square, but [float(x)] is
    [2^106 + 2^54], whose correctly rounded square root is the double
    [2^53]; the candidate root [2^53] fails the exact multiplication, and
    [is_perfect_square x] returns [False]. *)
Theorem is_perfect_square_misses_large_square :
  let k := 2 ^ 53 + 1 in
  let x := 81129638414606699710187514626049 in
  0 <= k /\ k * k = x
  /\ Float.of_int x = Ok (2 ^ 106 + 2 ^ 54)
  /\ Float.int_sqrt x = Ok (2 ^ 53)
  /\ is_perfect_square x = Ok false.
Proof. cbv zeta. repeat split; vm_compute; congruence. Qed.

(** C3 at [x = T_(2^52) - T_1]: the smallest index with [T_n + x]
    triangular is [n = 1], with [m = 2^52 > 1]; the discriminant there is
    [(2^53 + 1)^2], which [is_perfect_square] rejects, index 1 is skipped,
    and the search ends with [(False, 0, 0)]. *)
Theorem is_difference_of_triangulars_misses_witness :
  let x := 10141204801825837463773439328255 in
  let m := 2 ^ 52 in
  1 <= x /\ 1 < m
  /\ triangular_number m - triangular_number 1 = x
  /\ 1 + 8 * (triangular_number 1 + x) = (2 ^ 53 + 1) * (2 ^ 53 + 1)
  /\ is_difference_of_triangulars x = Ok (false, 0, 0).
Proof. cbv zeta. repeat split; vm_compute; congruence. Qed.

(** C4 at [x = (2^53 + 1)^2]: [x = k^2] with [k >= 2], and
    [is_sum_of_consecutive_triangulars x] returns [(False, 0)], not
    [(True, k - 1)]. *)
Theorem is_sum_of_consecutive_triangulars_misses_large_square :
  let k := 2 ^ 53 + 1 in
  let x := 81129638414606699710187514626049 in
  2 <= k /\ k * k = x
  /\ triangular_number (k - 1) + triangular_number k = x
  /\ is_sum_of_consecutive_triangulars x = Ok (false, 0).
Proof. cbv zeta. repeat split; vm_compute; congruence. Qed.

(** C5 at [n = 2^27 + 1]: [T_n = 9007199456067585] is odd and above
    [2^53], so no double holds it; the root computed for [T_n^2] is
    [T_n - 1], and [is_square_of_triangular (T_n^2)] returns [(False, 0)],
    not [(True, n)].  The three small cases of the claim hold. *)
Theorem is_square_of_triangular_round_trip_fails :
  let n := 134217729 in
  1 <= n
  /\ triangular_number n = 9007199456067585
  /\ Float.int_sqrt (triangular_number n * triangular_number n)
     = Ok (triangular_number n - 1)
  /\ is_square_of_triangular (triangular_number n * triangular_number n)
     = Ok (false, 0)
  /\ is_square_of_triangular 1 = Ok (true, 1)
  /\ is_square_of_triangular 9 = Ok (true, 2)
  /\ is_square_of_triangular 2 = Ok (false, 0).
Proof. cbv zeta. repeat split; vm_compute; congruence. Qed.

(** ** Further properties of the perfect-square test *)

(** From [2^1024] on the conversion to a double overflows: the rounded
    value keeps at least 53 bits, hence is at least [2^1024]. *)
Lemma int_sqrt_overflow (x : Z) :
  2 ^ 1024 <= x -> Float.int_sqrt x = Raise OverflowError.
Proof.
  intros Hx.
  assert (Hpos : 0 < 2 ^ 1024) by reflexivity.
  unfold Float.int_sqrt, Float.math_sqrt.
  destruct (Z.ltb_spec x 0) as [|_]; [lia|].
  enough (E : Float.of_int x = Raise OverflowError) by now rewrite E.
  unfold Float.of_int, Float.bit_length, Float.prec, Float.emax. cbv zeta.
  destruct (Z.leb_spec x 0) as [|_]; [lia|].
  assert (HL : 1024 <= Z.log2 x) by (apply Z.log2_le_pow2; lia).
  pose proof (Z.log2_spec x ltac:(lia)) as [HLlo _].
  set (L := Z.log2 x) in *.
  destruct (Z.leb_spec (L + 1) 53) as [|_]; [lia|].
  set (sh := L + 1 - 53).
  destruct (FloatFacts.round_half_even_spec x sh) as (q & -> & Hq & Hnear);
    [lia | unfold sh; lia |].
  rewrite Z.shiftl_mul_pow2 by lia. rewrite Z.mul_1_l.
  assert (HS : 2 ^ sh = 2 * 2 ^ (sh - 1)).
  { replace sh with (Z.succ (sh - 1)) at 1 by lia.
    rewrite Z.pow_succ_r by (unfold sh; lia). reflexivity. }
  assert (HD : 0 < 2 ^ (sh - 1))
    by (apply Z.pow_pos_nonneg; unfold sh; lia).
  assert (HLs : 2 ^ L = 2 ^ 52 * 2 ^ sh).
  { rewrite <- Z.pow_add_r by (unfold sh; lia). f_equal. unfold sh. lia. }
  assert (H1024 : 2 ^ 1024 <= 2 ^ L) by (apply Z.pow_le_mono_r; lia).
  assert (Hq52 : 2 ^ 52 <= q).
  { destruct (Z_le_gt_dec (2 ^ 52) q) as [|G]; [assumption|exfalso].
    assert (q * 2 ^ sh <= (2 ^ 52 - 1) * 2 ^ sh)
      by (apply Z.mul_le_mono_nonneg_r; lia).
    lia. }
  assert (2 ^ 52 * 2 ^ sh <= q * 2 ^ sh)
    by (apply Z.mul_le_mono_nonneg_r; lia).
  destruct (Z.leb_spec (2 ^ 1024) (q * 2 ^ sh)); [reflexivity | lia].
Qed.

(** X1: [is_perfect_square] has no false positive, on any integer: when it
    returns [True], [x] is the square of a non-negative integer. *)
Theorem is_perfect_square_no_false_positive (x : Z) :
  is_perfect_square x = Ok true ->
  0 <= x /\ exists r, 0 <= r /\ r * r = x.
Proof.
  intros H. apply is_perfect_square_true in H.
  destruct H as (Hx & root & _ & Hr). split; [exact Hx|].
  exists (Z.abs root). split; [apply Z.abs_nonneg | nia].
Qed.

Lemma is_perfect_square_no_false_positive_witness :
  is_perfect_square 49 = Ok true /\ exists r, 0 <= r /\ r * r = 49.
Proof.
  split; [reflexivity|].
  apply (is_perfect_square_no_false_positive 49). reflexivity.
Defined.



(** X3: where [is_perfect_square] raises: it returns on every integer below
    [2^1023] and raises [OverflowError] on every integer from [2^1024]
    on. *)
Theorem is_perfect_square_overflow_threshold (x : Z) :
  (x < 2 ^ 1023 -> exists flag, is_perfect_square x = Ok flag)
  /\ (2 ^ 1024 <= x -> is_perfect_square x = Raise OverflowError).
Proof.
  split.
  - intros Hx. unfold is_perfect_square.
    destruct (Z.ltb_spec x 0); [eauto|].
    destruct (FloatFacts.int_sqrt_defined x) as (r & ->); [lia|].
    cbn [bind]. eauto.
  - intros Hx. unfold is_perfect_square.
    assert (0 < 2 ^ 1024) by reflexivity.
    destruct (Z.ltb_spec x 0); [lia|].
    now rewrite int_sqrt_overflow.
Qed.

Lemma is_perfect_square_overflow_threshold_witness :
  (exists flag, is_perfect_square (2 ^ 1023 - 1) = Ok flag)
  /\ is_perfect_square (2 ^ 1024) = Raise OverflowError.
Proof.
  destruct (is_perfect_square_overflow_threshold (2 ^ 1023 - 1)) as [A _].
  destruct (is_perfect_square_overflow_threshold (2 ^ 1024)) as [_ B].
  split; [apply A; reflexivity | apply B; discriminate].
Defined.

(** ** Further properties of the triangular numbers *)

Lemma range_snoc (lo hi : Z) :
  lo <= hi -> range lo (hi + 1) = range lo hi ++ [hi].
Proof.
  intros H. rewrite (range_split lo hi (hi + 1)) by lia.
  f_equal. f_equal. unfold range.
  replace (hi + 1 - (hi + 1)) with 0 by lia. reflexivity.
Qed.

(** X4: for [n >= 0], [triangular_number n] is the sum [1 + 2 + ... + n]. *)
Theorem triangular_number_is_sum (n : Z) :
  0 <= n ->
  triangular_number n = fold_right Z.add 0 (range 1 (n + 1)).
Proof.
  revert n. apply natlike_ind; [reflexivity|].
  intros n Hn IH. replace (Z.succ n) with (n + 1) by lia.
  rewrite range_snoc by lia. rewrite fold_right_app. cbn [fold_right].
  rewrite triangular_number_succ, IH.
  generalize (range 1 (n + 1)). intros l.
  induction l as [|a l IHl]; cbn [fold_right]; lia.
Qed.

Lemma triangular_number_is_sum_witness :
  triangular_number 4 = 1 + (2 + (3 + (4 + 0))).
Proof. apply (triangular_number_is_sum 4). lia. Defined.

(** X5: for every integer [n], [consecutive_triangular_sum_property n]
    reports a valid identity: the sum of [T_n] and [T_(n+1)] it returns is
    [(n+1)^2], and [is_valid] is [True]. *)
Theorem consecutive_triangular_sum_property_valid (n : Z) :
  consecutive_triangular_sum_property n
  = (triangular_number n, triangular_number (n + 1),
     (n + 1) * (n + 1), (n + 1) * (n + 1), true).
Proof.
  unfold consecutive_triangular_sum_property. cbv zeta.
  rewrite consecutive_triangular_sum.
  replace ((n + 1) ^ 2) with ((n + 1) * (n + 1)) by ring.
  now rewrite Z.eqb_refl.
Qed.

(** ** Further properties of the composite predicates *)

(** X6: [is_square_of_triangular] has no false positive on any integer, and
    below [2^106] it is exact: it returns [(True, n)] if and only if
    [n >= 1] and [x = T_n^2]. *)
Theorem is_square_of_triangular_exact (x n : Z) :
  (is_square_of_triangular x = Ok (true, n) ->
   1 <= n /\ x = triangular_number n * triangular_number n)
  /\ (x < 2 ^ 106 -> 1 <= n ->
      x = triangular_number n * triangular_number n ->
      is_square_of_triangular x = Ok (true, n)).
Proof.
  split.
  - intros H. apply is_square_of_triangular_inv in H.
    destruct H as [[H _]|(_ & Hn & Hx)]; [discriminate | lia].
  - intros Hb Hn ->. now apply is_square_of_triangular_round_trip_exact.
Qed.

Lemma is_square_of_triangular_exact_witness :
  (1 <= 8 /\ 1296 = triangular_number 8 * triangular_number 8)
  /\ is_square_of_triangular 36 = Ok (true, 3).
Proof.
  split.
  - apply (is_square_of_triangular_exact 1296 8). reflexivity.
  - apply (is_square_of_triangular_exact 36 3); reflexivity || lia.
Defined.

(** X7: [is_sum_of_consecutive_triangulars] has no false positive on any
    integer, and below [2^106] it is exact: it returns [(True, n)] if and
    only if [n >= 1] and [x = (n+1)^2 = T_n + T_(n+1)]. *)
Theorem is_sum_of_consecutive_triangulars_exact_below_2_106 (x n : Z) :
  (is_sum_of_consecutive_triangulars x = Ok (true, n) ->
   1 <= n /\ x = (n + 1) * (n + 1)
   /\ x = triangular_number n + triangular_number (n + 1))
  /\ (x < 2 ^ 106 -> 1 <= n -> x = (n + 1) * (n + 1) ->
      is_sum_of_consecutive_triangulars x = Ok (true, n)).
Proof.
  split.
  - intros H. apply is_sum_of_consecutive_triangulars_inv in H.
    destruct H as [[H _]|(_ & Hn & Hx)]; [discriminate|].
    rewrite consecutive_triangular_sum. lia.
  - intros Hb Hn Hx.
    apply is_sum_of_consecutive_triangulars_exact; auto.
Qed.

Lemma is_sum_of_consecutive_triangulars_exact_below_2_106_witness :
  (1 <= 4 /\ 25 = (4 + 1) * (4 + 1)
   /\ 25 = triangular_number 4 + triangular_number (4 + 1))
  /\ is_sum_of_consecutive_triangulars 49 = Ok (true, 6).
Proof.
  split.
  - apply (is_sum_of_consecutive_triangulars_exact_below_2_106 25 4).
    reflexivity.
  - apply (is_sum_of_consecutive_triangulars_exact_below_2_106 49 6);
      reflexivity || lia.
Defined.

(** X8: [is_difference_of_triangulars] has no false positive on any
    integer: a returned [(True, n, m)] has [1 <= n <= 1000], [n < m] and
    [T_m - T_n = x]; in particular [x >= 2], so that [True] is never
    returned for [x <= 1]. *)
Theorem is_difference_of_triangulars_sound (x n m : Z) :
  is_difference_of_triangulars x = Ok (true, n, m) ->
  1 <= n <= 1000 /\ n < m
  /\ triangular_number m - triangular_number n = x
  /\ 2 <= x.
Proof.
  intros H. apply difference_loop_inv in H.
  destruct H as [(H & _)|(_ & Hin & Hlt & Ht)]; [discriminate|].
  apply In_range in Hin.
  split; [lia|]. split; [exact Hlt|]. split; [lia|].
  pose proof (triangular_number_succ n).
  destruct (Z.eq_dec m (n + 1)) as [->|];
    [|pose proof (triangular_number_lt (n + 1) m)]; lia.
Qed.

Lemma is_difference_of_triangulars_sound_witness :
  1 <= 7 <= 1000 /\ 7 < 17
  /\ triangular_number 17 - triangular_number 7 = 125
  /\ 2 <= 125.
Proof.
  apply (is_difference_of_triangulars_sound 125 7 17).
  vm_compute. reflexivity.
Defined.

Lemma is_perfect_square_raises (x : Z) :
  2 ^ 1024 <= x -> is_perfect_square x = Raise OverflowError.
Proof.
  intros Hx. unfold is_perfect_square.
  assert (0 < 2 ^ 1024) by reflexivity.
  destruct (Z.ltb_spec x 0); [lia|].
  now rewrite int_sqrt_overflow.
Qed.

(** One turn of the search, where the floating-point root is exact: either
    the index is returned, or the loop goes on. *)
Lemma difference_loop_step (x c : Z) (ns : list Z) :
  in_exact_range x c ->
  difference_loop x (c :: ns) = difference_loop x ns
  \/ exists j, difference_loop x (c :: ns) = Ok (true, c, j).
Proof.
  intros [Hn Hb]. rewrite difference_loop_cons.
  rewrite is_perfect_square_exact by exact Hb. cbn [bind].
  set (d := 1 + 8 * (triangular_number c + x)) in *.
  destruct (Z.eqb_spec (Z.sqrt d * Z.sqrt d) d) as [E|_]; [|now left].
  assert (R : Float.int_sqrt d = Ok (Z.sqrt d)).
  { rewrite <- E at 1.
    apply int_sqrt_of_square; [apply Z.sqrt_nonneg | rewrite E; lia]. }
  rewrite R. cbn [bind].
  set (j := Z.max _ _).
  destruct ((c <? j) && (triangular_number j =? triangular_number c + x));
    [right; exists j; reflexivity | now left].
Qed.

(** There the search never raises: it returns a hit, or [(False, 0, 0)]
    after indices none of which has a partner. *)
Lemma difference_loop_total (x : Z) (ns : list Z) :
  (forall k, In k ns -> in_exact_range x k) ->
  (exists n m, difference_loop x ns = Ok (true, n, m))
  \/ (difference_loop x ns = Ok (false, 0, 0)
      /\ forall k, In k ns -> ~ has_partner x k).
Proof.
  induction ns as [|c ns IH]; intros Hr.
  - right. split; [reflexivity | intros k []].
  - assert (Hc : in_exact_range x c) by (apply Hr; now left).
    destruct (difference_loop_step x c ns Hc) as [E|(j & E)];
      [|left; eauto].
    rewrite E.
    destruct IH as [T|[F Hno]]; [intros k Hk; apply Hr; now right | now left |].
    right. split; [exact F|].
    intros k [<-|Hk]; [|now apply Hno].
    intros (m & Hlt & Ht).
    rewrite (difference_loop_hit x c m ns Hc Hlt Ht) in E.
    rewrite F in E. discriminate.
Qed.

(** X9: for [1 <= x <= 2^102], [is_difference_of_triangulars x] never
    raises; it returns [(True, n, m)] exactly for the smallest [n] of
    [[1, 1000]] such that [T_n + x] is a triangular number [T_m] with
    [m > n], and it returns [(False, 0, 0)] exactly when no [n] of
    [[1, 1000]] is such. *)
Theorem is_difference_of_triangulars_exact_below_2_102 (x : Z) :
  1 <= x <= 2 ^ 102 ->
  (exists r, is_difference_of_triangulars x = Ok r)
  /\ (forall n m,
         is_difference_of_triangulars x = Ok (true, n, m)
         <-> 1 <= n <= 1000 /\ n < m
             /\ triangular_number m - triangular_number n = x
             /\ forall k, 1 <= k < n -> ~ has_partner x k)
  /\ (is_difference_of_triangulars x = Ok (false, 0, 0)
      <-> forall k, 1 <= k <= 1000 -> ~ has_partner x k).
Proof.
  intros Hx.
  destruct (is_difference_of_triangulars_exact x Hx) as [Hit Hmiss].
  assert (Hr : forall k, In k (range 1 1001) -> in_exact_range x k).
  { intros k Hk. apply In_range in Hk.
    apply search_in_exact_range; lia. }
  pose proof (difference_loop_total x (range 1 1001) Hr) as Tot.
  change (difference_loop x (range 1 1001))
    with (is_difference_of_triangulars x) in Tot.
  split; [|split].
  - destruct Tot as [(n & m & E)|[E _]]; rewrite E; eauto.
  - exact Hit.
  - split; [|exact Hmiss].
    intros F k Hk.
    destruct Tot as [(n & m & E)|[_ Hno]];
      [rewrite F in E; discriminate|].
    apply Hno. apply In_range. lia.
Qed.

Lemma is_difference_of_triangulars_exact_below_2_102_witness :
  (exists r, is_difference_of_triangulars 45 = Ok r)
  /\ (forall k, 1 <= k < 4 -> ~ has_partner 45 k).
Proof.
  destruct (is_difference_of_triangulars_exact_below_2_102 45) as (A & B & _);
    [split; [lia | discriminate]|].
  split; [exact A|].
  apply (B 4 10). vm_compute. reflexivity.
Defined.

(** X10: every [x] with [2 <= x <= 1001] is reported as a difference of
    triangular numbers, with an index [n <= x - 1]: the pair
    [T_x - T_(x-1) = x] is within the search bound. *)
Theorem is_difference_of_triangulars_finds_small (x : Z) :
  2 <= x <= 1001 ->
  exists n m,
    is_difference_of_triangulars x = Ok (true, n, m) /\ n <= x - 1.
Proof.
  intros Hx.
  assert (Hx' : 1 <= x <= 2 ^ 102).
  { split; [lia|]. apply Z.le_trans with 1001; [lia | discriminate]. }
  assert (Hp : has_partner x (x - 1)).
  { exists x. split; [lia|].
    pose proof (triangular_number_succ (x - 1)).
    replace (x - 1 + 1) with x in * by lia. lia. }
  destruct (is_difference_of_triangulars_exact x Hx') as [Hit Hmiss].
  assert (Hr : forall k, In k (range 1 1001) -> in_exact_range x k).
  { intros k Hk. apply In_range in Hk.
    apply search_in_exact_range; lia. }
  destruct (difference_loop_total x (range 1 1001) Hr)
    as [(n & m & E)|[_ Hno]].
  - exists n, m. split; [exact E|].
    apply Hit in E. destruct E as (_ & _ & _ & Hmin).
    destruct (Z_le_gt_dec n (x - 1)) as [|G]; [assumption|exfalso].
    apply (Hmin (x - 1)); [lia | exact Hp].
  - exfalso. apply (Hno (x - 1)); [apply In_range; lia | exact Hp].
Qed.

Lemma is_difference_of_triangulars_finds_small_witness :
  exists n m,
    is_difference_of_triangulars 1001 = Ok (true, n, m) /\ n <= 1001 - 1.
Proof. apply (is_difference_of_triangulars_finds_small 1001). lia. Defined.

(** A positive odd divisor of a power of two is [1]. *)
Lemma odd_divisor_of_power_of_two (j a : Z) :
  0 <= j -> 0 < a -> Z.odd a = true -> (a | 2 ^ j) -> a = 1.
Proof.
  intros Hj Ha Hodd. revert j Hj. apply (natlike_ind (fun j => (a | 2 ^ j) -> a = 1)).
  - intros D. apply Z.divide_1_r in D. lia.
  - intros j Hj IH D. apply IH.
    rewrite Z.pow_succ_r in D by exact Hj.
    apply Z.gauss with 2; [exact D|].
    pose proof (Z.gcd_divide_l a 2) as Dl.
    pose proof (Z.gcd_divide_r a 2) as Dr.
    pose proof (Z.gcd_nonneg a 2) as G0.
    assert (G2 : Z.gcd a 2 <= 2) by (apply Z.divide_pos_le; [lia | exact Dr]).
    assert (C : Z.gcd a 2 = 0 \/ Z.gcd a 2 = 1 \/ Z.gcd a 2 = 2) by lia.
    destruct C as [C|[C|C]]; [|exact C|]; rewrite C in *.
    + destruct Dr as [q Hq]. lia.
    + destruct Dl as [q Hq]. rewrite Hq, Z.mul_comm, Z.odd_mul in Hodd.
      discriminate.
Qed.

(** A power of two is a difference of triangular numbers in one way only,
    as [T_x - T_(x-1)]. *)
Lemma has_partner_power_of_two (k n : Z) :
  0 <= k -> 1 <= n -> has_partner (2 ^ k) n -> n = 2 ^ k - 1.
Proof.
  intros Hk Hn (m & Hlt & Ht).
  pose proof (triangular_number_double m) as Dm.
  pose proof (triangular_number_double n) as Dn.
  assert (P : (m - n) * (m + n + 1) = 2 ^ (k + 1)).
  { rewrite Z.pow_add_r by lia. change (2 ^ 1) with 2. nia. }
  destruct (Z.odd (m - n)) eqn:Oa.
  - assert (A : m - n = 1).
    { apply (odd_divisor_of_power_of_two (k + 1)); [lia | lia | exact Oa|].
      exists (m + n + 1). rewrite <- P. ring. }
    rewrite A in P. rewrite Z.pow_add_r in P by lia.
    change (2 ^ 1) with 2 in P. lia.
  - exfalso.
    assert (Ob : Z.odd (m + n + 1) = true).
    { replace (m + n + 1) with ((m - n) + (2 * n + 1)) by ring.
      rewrite Z.odd_add, Oa.
      replace (2 * n + 1) with (1 + 2 * n) by ring.
      now rewrite Z.odd_add_mul_2. }
    assert (B : m + n + 1 = 1).
    { apply (odd_divisor_of_power_of_two (k + 1)); [lia | lia | exact Ob|].
      exists (m - n). exact (eq_sym P). }
    lia.
Qed.

(** X11: the bound [max_n = 1000] makes the search miss the large powers of
    two: for [10 <= k <= 102], [2^k] is the difference [T_(2^k) -
    T_(2^k - 1)] and [is_difference_of_triangulars (2^k)] returns
    [(False, 0, 0)], the only index with a partner being [2^k - 1 > 1000]. *)
Theorem is_difference_of_triangulars_misses_powers_of_two (k : Z) :
  10 <= k <= 102 ->
  triangular_number (2 ^ k) - triangular_number (2 ^ k - 1) = 2 ^ k
  /\ is_difference_of_triangulars (2 ^ k) = Ok (false, 0, 0).
Proof.
  intros Hk.
  assert (H10 : 2 ^ 10 <= 2 ^ k) by (apply Z.pow_le_mono_r; lia).
  assert (H102 : 2 ^ k <= 2 ^ 102) by (apply Z.pow_le_mono_r; lia).
  change (2 ^ 10) with 1024 in H10.
  split.
  - pose proof (triangular_number_succ (2 ^ k - 1)) as S.
    replace (2 ^ k - 1 + 1) with (2 ^ k) in S by lia. lia.
  - apply is_difference_of_triangulars_exact; [lia|].
    intros n Hn Hp.
    apply has_partner_power_of_two in Hp; lia.
Qed.

Lemma is_difference_of_triangulars_misses_powers_of_two_witness :
  triangular_number 1024 - triangular_number 1023 = 1024
  /\ is_difference_of_triangulars 1024 = Ok (false, 0, 0).
Proof.
  apply (is_difference_of_triangulars_misses_powers_of_two 10). lia.
Defined.

(** X12: the overflow of the perfect-square test reaches the callers:
    from [2^1024] on, [is_square_of_triangular],
    [is_sum_of_consecutive_triangulars] and
    [is_square_of_triangular_of_square_of_triangular] raise
    [OverflowError], and [is_difference_of_triangulars] does so from
    [2^1021] on, at its first index. *)
Theorem composite_predicates_overflow (x : Z) :
  (2 ^ 1024 <= x ->
   is_square_of_triangular x = Raise OverflowError
   /\ is_sum_of_consecutive_triangulars x = Raise OverflowError
   /\ is_square_of_triangular_of_square_of_triangular x
      = Raise OverflowError)
  /\ (2 ^ 1021 <= x ->
      is_difference_of_triangulars x = Raise OverflowError).
Proof.
  split.
  - intros Hx.
    unfold is_square_of_triangular, is_sum_of_consecutive_triangulars,
      is_square_of_triangular_of_square_of_triangular.
    rewrite (is_perfect_square_raises x Hx). cbn [bind]. auto.
  - intros Hx. unfold is_difference_of_triangulars. cbv zeta.
    change (1000 + 1) with 1001.
    rewrite (range_split 1 1 1001) by lia.
    change (range 1 1) with (@nil Z). cbn [app].
    rewrite difference_loop_cons.
    rewrite is_perfect_square_raises; [reflexivity|].
    change (triangular_number 1) with 1.
    change (2 ^ 1024) with (8 * 2 ^ 1021). lia.
Qed.

Lemma composite_predicates_overflow_witness :
  is_square_of_triangular (2 ^ 1024) = Raise OverflowError
  /\ is_difference_of_triangulars (2 ^ 1021) = Raise OverflowError.
Proof.
  destruct (composite_predicates_overflow (2 ^ 1024)) as [A _].
  destruct (composite_predicates_overflow (2 ^ 1021)) as [_ B].
  split; [apply A; discriminate | apply B; discriminate].
Defined.

(** ** The other drivers *)

Lemma nested_predicate_inv (x n : Z) :
  is_square_of_triangular_of_square_of_triangular x = Ok (true, n) ->
  1 <= n <= 10 /\ x = T_of_T_squared n * T_of_T_squared n.
Proof.
  unfold is_square_of_triangular_of_square_of_triangular. intros H.
  apply bind_Ok in H. destruct H as (sq & Esq & H).
  destruct sq; simpl negb in H; cbv iota in H; [|discriminate].
  apply is_perfect_square_true in Esq.
  destruct Esq as (_ & root & Er & Hr).
  rewrite Er in H. cbn [bind] in H. cbv zeta in H.
  apply Ok_inj in H. change (10 + 1) with 11 in H.
  apply nested_loop_range in H. destruct H as [Hn Ht].
  split; [lia|]. now rewrite <- Ht.
Qed.

(** X13: [find_smallest_solution] of [TriangularSquareDiff_v0.1.2.py]
    returns, without raising, [(45, 2, 4, 10)]: [45 = T_(T_2^2)], [45 =
    T_10 - T_4], and no smaller [x >= 1] passes both of its tests. *)
Theorem find_smallest_solution_v0_1_2_returns :
  TriangularSquareDiff_v0_1_2.find_smallest_solution
  = Ok (Some (45, 2, 4, 10))
  /\ is_triangular_of_square_of_triangular 45 = (true, 2)
  /\ is_difference_of_triangulars 45 = Ok (true, 4, 10)
  /\ forall y, 1 <= y < 45 ->
       ~ exists n1 n2 m,
           is_triangular_of_square_of_triangular y = (true, n1)
           /\ is_difference_of_triangulars y = Ok (true, n2, m).
Proof.
  split; [vm_compute; reflexivity|].
  split; [vm_compute; reflexivity|].
  split; [vm_compute; reflexivity|].
  intros y Hy (n1 & n2 & m & H1 & H2).
  unfold is_triangular_of_square_of_triangular in H1. cbv zeta in H1.
  change (20 + 1) with 21 in H1.
  apply nested_loop_range in H1. destruct H1 as [Hn ->].
  destruct (Z.eq_dec n1 1) as [->|Hne].
  - vm_compute in H2. discriminate.
  - pose proof (T_of_T_squared_lt 1 n1).
    assert (T_of_T_squared 2 <= T_of_T_squared n1).
    { destruct (Z.eq_dec n1 2) as [->|]; [lia|].
      pose proof (T_of_T_squared_lt 2 n1). lia. }
    change (T_of_T_squared 2) with 45 in *. lia.
Qed.

(** X14: [find_smallest_solution] of [TriangularSquareDiff_v0.1.4.py]
    returns, without raising, [(2025, 2, 10, 64)]: [2025 = (T_(T_2^2))^2 =
    45^2], [2025 = T_64 - T_10], and no smaller [x >= 1] passes both of its
    tests. *)
Theorem find_smallest_solution_v0_1_4_returns :
  TriangularSquareDiff_v0_1_4.find_smallest_solution
  = Ok (Some (2025, 2, 10, 64))
  /\ is_square_of_triangular_of_square_of_triangular 2025 = Ok (true, 2)
  /\ is_difference_of_triangulars 2025 = Ok (true, 10, 64)
  /\ forall y, 1 <= y < 2025 ->
       ~ exists n1 n2 m,
           is_square_of_triangular_of_square_of_triangular y = Ok (true, n1)
           /\ is_difference_of_triangulars y = Ok (true, n2, m).
Proof.
  split; [vm_compute; reflexivity|].
  split; [vm_compute; reflexivity|].
  split; [vm_compute; reflexivity|].
  intros y Hy (n1 & n2 & m & H1 & H2).
  apply nested_predicate_inv in H1. destruct H1 as [Hn ->].
  destruct (Z.eq_dec n1 1) as [->|Hne].
  - vm_compute in H2. discriminate.
  - assert (T_of_T_squared 2 <= T_of_T_squared n1).
    { destruct (Z.eq_dec n1 2) as [->|]; [lia|].
      pose proof (T_of_T_squared_lt 2 n1). lia. }
    change (T_of_T_squared 2) with 45 in *. nia.
Qed.

(** Whatever the candidates, a tuple returned by the loop of the two
    sum-and-difference searches is right. *)
Lemma sum_and_difference_loop_inv (ns : list Z) (x a b k m : Z) :
  TriangularSquareDiff_v0_1_7.sum_and_difference_loop ns
  = Ok (Some (x, a, b, k, m)) ->
  In b ns /\ x = b * b /\ a = b - 1
  /\ is_difference_of_triangulars x = Ok (true, k, m).
Proof.
  induction ns as [|c ns IH]; intros H; [discriminate|].
  cbn [TriangularSquareDiff_v0_1_7.sum_and_difference_loop] in H.
  cbv zeta in H.
  apply bind_Ok in H. destruct H as ([[is_diff_tri k'] m'] & E & H).
  destruct is_diff_tri.
  - apply Ok_inj in H. injection H as <- <- <- <- <-.
    split; [now left|]. auto.
  - destruct (IH H) as (Hin & R). split; [now right | exact R].
Qed.

(** X15: a tuple [(x, a, b, k, m)] returned by the search loop of
    [find_smallest_odd_consecutive_sum_and_difference] and
    [find_smallest_consecutive_sum_and_difference], on any list of
    candidates, is a number with both properties: [x = b^2 = T_a + T_b]
    with [a = b - 1] and [b] a candidate, and [x = T_m - T_k] with
    [1 <= k <= 1000] and [k < m]. *)
Theorem sum_and_difference_loop_sound (ns : list Z) (x a b k m : Z) :
  TriangularSquareDiff_v0_1_7.sum_and_difference_loop ns
  = Ok (Some (x, a, b, k, m)) ->
  In b ns /\ a = b - 1
  /\ x = triangular_number a + triangular_number b
  /\ 1 <= k <= 1000 /\ k < m
  /\ x = triangular_number m - triangular_number k.
Proof.
  intros H. apply sum_and_difference_loop_inv in H.
  destruct H as (Hin & Hx & Ha & Hd).
  apply difference_loop_inv in Hd.
  destruct Hd as [(Hd & _)|(_ & Hk & Hlt & Ht)]; [discriminate|].
  apply In_range in Hk.
  pose proof (consecutive_triangular_sum (b - 1)) as S.
  replace (b - 1 + 1) with b in S by lia.
  subst a. repeat split; try assumption; lia.
Qed.

Lemma sum_and_difference_loop_sound_witness :
  In 3 (range_step 3 100 2) /\ 2 = 3 - 1
  /\ 9 = triangular_number 2 + triangular_number 3
  /\ 1 <= 1 <= 1000 /\ 1 < 4
  /\ 9 = triangular_number 4 - triangular_number 1.
Proof.
  apply (sum_and_difference_loop_sound (range_step 3 100 2) 9 2 3 1 4).
  vm_compute. reflexivity.
Defined.

(** X16: the two searches of [TriangularSquareDiff_v0.1.7.py] return,
    without raising, at their first candidate: [(9, 2, 3, 1, 4)] for the odd
    squares [3^2, 5^2, ..., 99^2] and [(4, 1, 2, 3, 4)] for the squares
    [2^2, ..., 99^2]. *)
Theorem sum_and_difference_searches_return :
  range_step 3 100 2 = map (fun i => 2 * i + 1) (range 1 50)
  /\ TriangularSquareDiff_v0_1_7.find_smallest_odd_consecutive_sum_and_difference
     = Ok (Some (9, 2, 3, 1, 4))
  /\ TriangularSquareDiff_v0_1_7.find_smallest_consecutive_sum_and_difference
     = Ok (Some (4, 1, 2, 3, 4)).
Proof. repeat split; vm_compute; reflexivity. Qed.

(** ** The derivations *)

(** What the perfect-square branch of a derivation hands back. *)
Lemma square_branch_root (v root : Z) :
  is_perfect_square v = Ok true -> Float.int_sqrt v = Ok root ->
  root * root = v
  /\ triangular_number (root - 1) + triangular_number root = v.
Proof.
  intros Hsq Hr. apply is_perfect_square_true in Hsq.
  destruct Hsq as (_ & r & Er & Hv). rewrite Er in Hr.
  apply Ok_inj in Hr. subst r. split; [exact Hv|].
  pose proof (consecutive_triangular_sum (root - 1)) as S.
  replace (root - 1 + 1) with root in S by lia. lia.
Qed.

(** X17: [derive_multiple_subscript_expression n] and
    [general_multiple_subscript_derivation n]
    ([TriangularSquareDiff_v0.1.7.py]) return a root [k] only when
    [k^2 = T_(T_n^2)], and then [T_(k-1) + T_k = T_(T_n^2)] and the triple
    is [(k, k - 1, k)]; for [T_(T_n^2) < 2^106] they return [None] only when
    [T_(T_n^2)] is not the square of an integer. *)
Theorem multiple_subscript_derivations_sound (n : Z) :
  (forall k a b,
      TriangularSquareDiff_v0_1_7.derive_multiple_subscript_expression n
      = Ok (Some k, a, b) ->
      a = Some (k - 1) /\ b = Some k
      /\ k * k = T_of_T_squared n
      /\ triangular_number (k - 1) + triangular_number k = T_of_T_squared n)
  /\ (forall k,
         TriangularSquareDiff_v0_1_7.general_multiple_subscript_derivation n
         = Ok (Some k) ->
         k * k = T_of_T_squared n
         /\ triangular_number (k - 1) + triangular_number k
            = T_of_T_squared n)
  /\ (T_of_T_squared n < 2 ^ 106 ->
      (forall a b,
          TriangularSquareDiff_v0_1_7.derive_multiple_subscript_expression n
          = Ok (None, a, b) ->
          ~ exists r, r * r = T_of_T_squared n)
      /\ (TriangularSquareDiff_v0_1_7.general_multiple_subscript_derivation n
          = Ok None ->
          ~ exists r, r * r = T_of_T_squared n)).
Proof.
  unfold TriangularSquareDiff_v0_1_7.derive_multiple_subscript_expression,
    TriangularSquareDiff_v0_1_7.general_multiple_subscript_derivation.
  cbv zeta. fold (T_of_T_squared n).
  pose proof (triangular_number_nonneg
                (triangular_number n * triangular_number n)) as H0.
  fold (T_of_T_squared n) in H0.
  destruct (is_perfect_square (T_of_T_squared n)) as [[|]|e] eqn:Esq;
    cbn [bind].
  - destruct (is_perfect_square_true _ Esq) as (_ & root & Er & _).
    rewrite Er. cbn [bind].
    destruct (square_branch_root _ _ Esq Er) as [R1 R2].
    split; [|split; [|intros Hb; split]].
    + intros k a b H. apply Ok_inj in H. injection H as <- <- <-. auto.
    + intros k H. apply Ok_inj in H. injection H as <-. auto.
    + intros a b H. discriminate.
    + intros H. discriminate.
  - split; [|split; [|intros Hb; split]]; try (intros; discriminate).
    + intros a b _ Hex.
      assert (F : is_perfect_square (T_of_T_squared n) = Ok true)
        by (apply (is_perfect_square_iff _ Hb); split; [lia | exact Hex]).
      rewrite Esq in F. discriminate.
    + intros _ Hex.
      assert (F : is_perfect_square (T_of_T_squared n) = Ok true)
        by (apply (is_perfect_square_iff _ Hb); split; [lia | exact Hex]).
      rewrite Esq in F. discriminate.
  - split; [|split; [|intros Hb; split]]; intros; discriminate.
Qed.

Lemma multiple_subscript_derivations_sound_witness :
  (Some 0 = Some (1 - 1) /\ Some 1 = Some 1
   /\ 1 * 1 = T_of_T_squared 1
   /\ triangular_number (1 - 1) + triangular_number 1 = T_of_T_squared 1)
  /\ ~ exists r, r * r = T_of_T_squared 2.
Proof.
  destruct (multiple_subscript_derivations_sound 1) as (A & _ & _).
  destruct (multiple_subscript_derivations_sound 2) as (_ & _ & B).
  split.
  - apply A. reflexivity.
  - destruct B as [B _]; [reflexivity|].
    apply (B None None). reflexivity.
Defined.

(** X18: [derive_expression_for_T_T_m_squared_squared m] of
    [TriangularLaTeXDerivation_v0.2.0.py] returns [(k, True)] only when
    [k^2 = T_(T_m^2)], and then [T_(k-1) + T_k = T_(T_m^2)]; the flag is
    [True] exactly when a root is returned; for [T_(T_m^2) < 2^106] it
    returns [(None, False)] if and only if [T_(T_m^2)] is not the square of
    an integer. *)
Theorem derive_expression_v0_2_0_sound (m : Z) :
  (forall r flag,
      TriangularLaTeXDerivation_v0_2_0.derive_expression_for_T_T_m_squared_squared
        m = Ok (r, flag) ->
      match r with
      | Some k =>
          flag = true /\ k * k = T_of_T_squared m
          /\ triangular_number (k - 1) + triangular_number k
             = T_of_T_squared m
      | None => flag = false
      end)
  /\ (T_of_T_squared m < 2 ^ 106 ->
      (TriangularLaTeXDerivation_v0_2_0.derive_expression_for_T_T_m_squared_squared
         m = Ok (None, false)
       <-> ~ exists r, r * r = T_of_T_squared m)).
Proof.
  unfold
    TriangularLaTeXDerivation_v0_2_0.derive_expression_for_T_T_m_squared_squared.
  cbv zeta. fold (T_of_T_squared m).
  pose proof (triangular_number_nonneg
                (triangular_number m * triangular_number m)) as H0.
  fold (T_of_T_squared m) in H0.
  split.
  - intros r flag H.
    apply bind_Ok in H. destruct H as (sq & Esq & H).
    destruct sq.
    + apply bind_Ok in H. destruct H as (root & Er & H).
      apply Ok_inj in H. injection H as <- <-.
      destruct (square_branch_root _ _ Esq Er). auto.
    + apply Ok_inj in H. injection H as <- <-. reflexivity.
  - intros Hb.
    pose proof (is_perfect_square_iff _ Hb) as Iff.
    pose proof (is_perfect_square_exact (T_of_T_squared m)
                  (conj H0 Hb)) as Ex.
    rewrite Ex in *. cbn [bind].
    destruct (Z.sqrt (T_of_T_squared m) * Z.sqrt (T_of_T_squared m)
              =? T_of_T_squared m).
    + destruct (proj1 Iff eq_refl) as (_ & Hex).
      destruct (Float.int_sqrt (T_of_T_squared m)); cbn [bind];
        (split; [discriminate | intros N; now destruct N]).
    + split; [|reflexivity].
      intros _ Hex.
      assert (F : Ok false = Ok true) by (apply Iff; split; [lia | exact Hex]).
      discriminate.
Qed.

Lemma derive_expression_v0_2_0_sound_witness :
  (true = true /\ 1 * 1 = T_of_T_squared 1
   /\ triangular_number (1 - 1) + triangular_number 1 = T_of_T_squared 1)
  /\ ~ exists r, r * r = T_of_T_squared 3.
Proof.
  destruct (derive_expression_v0_2_0_sound 1) as (A & _).
  destruct (derive_expression_v0_2_0_sound 3) as (_ & B).
  split.
  - apply (A (Some 1) true). reflexivity.
  - apply B; reflexivity.
Defined.






(** ** Where the composite predicates return *)

(** Below [2^1023] the test returns, and on [True] the root is there. *)
Lemma perfect_square_step (v : Z) :
  v < 2 ^ 1023 ->
  is_perfect_square v = Ok false
  \/ (is_perfect_square v = Ok true
      /\ exists r, Float.int_sqrt v = Ok r /\ r * r = v).
Proof.
  intros Hv. unfold is_perfect_square.
  destruct (Z.ltb_spec v 0); [now left|].
  destruct (FloatFacts.int_sqrt_defined v) as (r & E); [lia|].
  rewrite E. cbn [bind].
  destruct (Z.eqb_spec (r * r) v); [right; eauto | now left].
Qed.

Lemma root_below_2_512 (r v : Z) :
  r * r = v -> v < 2 ^ 1023 -> 1 + 8 * r < 2 ^ 1023.
Proof.
  intros Hr Hv.
  assert (H512 : 2 ^ 1023 = 2 ^ 511 * 2 ^ 512) by reflexivity.
  assert (P : 0 < 2 ^ 511) by reflexivity.
  assert (Q : 2 ^ 512 = 2 * 2 ^ 511) by reflexivity.
  destruct (Z_lt_ge_dec r (2 ^ 512)) as [L|G]; [lia|exfalso].
  assert (2 ^ 512 * 2 ^ 512 <= r * r)
    by (apply Z.square_le_mono_nonneg; lia).
  nia.
Qed.

Lemma difference_loop_returns (x : Z) (ns : list Z) :
  (forall k, In k ns -> 1 + 8 * (triangular_number k + x) < 2 ^ 1023) ->
  exists r, difference_loop x ns = Ok r.
Proof.
  induction ns as [|c ns IH]; intros Hb; [cbn; eauto|].
  rewrite difference_loop_cons.
  assert (IH' : exists r, difference_loop x ns = Ok r)
    by (apply IH; intros k Hk; apply Hb; now right).
  destruct (perfect_square_step (1 + 8 * (triangular_number c + x)))
    as [E|(E & r & Er & _)]; [apply Hb; now left | | ].
  - rewrite E. cbn [bind]. exact IH'.
  - rewrite E, Er. cbn [bind].
    match goal with |- context [if ?b then _ else _] => destruct b end;
      [eauto | exact IH'].
Qed.

(** X22: the composite predicates return, without raising, on every
    integer below [2^1023] ([is_square_of_triangular],
    [is_sum_of_consecutive_triangulars],
    [is_square_of_triangular_of_square_of_triangular]) and below [2^1019]
    ([is_difference_of_triangulars]); negative integers included. *)
Theorem composite_predicates_return (x : Z) :
  (x < 2 ^ 1023 ->
   (exists r, is_square_of_triangular x = Ok r)
   /\ (exists r, is_sum_of_consecutive_triangulars x = Ok r)
   /\ (exists r, is_square_of_triangular_of_square_of_triangular x = Ok r))
  /\ (x < 2 ^ 1019 -> exists r, is_difference_of_triangulars x = Ok r).
Proof.
  split.
  - intros Hx.
    unfold is_square_of_triangular, is_sum_of_consecutive_triangulars,
      is_square_of_triangular_of_square_of_triangular.
    destruct (perfect_square_step x Hx) as [E|(E & r & Er & Hr)];
      rewrite E; cbn [bind negb]; [repeat split; eauto|].
    rewrite Er. cbn [bind]. cbv zeta.
    split; [|split; [|eauto]].
    + destruct (perfect_square_step (1 + 8 * r)) as [D|(D & s & Es & _)];
        [exact (root_below_2_512 r x Hr Hx) | | ];
        rewrite D; cbn [bind negb]; [eauto|].
      rewrite Es. cbn [bind].
      match goal with |- context [if ?b then _ else _] => destruct b end;
        eauto.
    + destruct (0 <? r - 1); [|eauto].
      match goal with |- context [if ?b then _ else _] => destruct b end;
        eauto.
  - intros Hx. unfold is_difference_of_triangulars. cbv zeta.
    apply difference_loop_returns.
    intros k Hk. apply In_range in Hk.
    assert (triangular_number k <= triangular_number 1000).
    { destruct (Z.eq_dec k 1000) as [->|]; [lia|].
      pose proof (triangular_number_lt k 1000). lia. }
    change (triangular_number 1000) with 500500 in *.
    assert (E : 2 ^ 1023 = 16 * 2 ^ 1019) by reflexivity.
    assert (B : 2 ^ 20 <= 2 ^ 1019) by (apply Z.pow_le_mono_r; lia).
    change (2 ^ 20) with 1048576 in B. lia.
Qed.

Lemma composite_predicates_return_witness :
  (exists r, is_square_of_triangular (2 ^ 1023 - 1) = Ok r)
  /\ (exists r, is_difference_of_triangulars (- 5) = Ok r).
Proof.
  destruct (composite_predicates_return (2 ^ 1023 - 1)) as [A _].
  destruct (composite_predicates_return (- 5)) as [_ B].
  split; [apply A; reflexivity | apply B; reflexivity].
Defined.
